(** * Hurricane flow field: a shallow embedding of [hurricane_flow_field.py]

    The Python class [HurricaneFlowField] is embedded once, generically over
    the arithmetic of Python's [float], and then read at two instances:

    - [Ideal]: the real numbers, the arithmetic the model's mathematics is
      about (no rounding, no overflow, no NaN);
    - [Machine]: IEEE 754 binary64 (Rocq's primitive floats), the arithmetic
      CPython executes, used to evaluate the code on concrete inputs.

    The attributes [center_x], [center_y], [max_wind_speed] and [eye_radius]
    are floats, as [__init__] annotates them, and the grid coordinates are
    ints, promoted where line 53 subtracts a float from them. An int passed
    for an attribute, as [main] does for the center, is held as the float of
    the same value: below [2^53] that changes no velocity except, possibly,
    the sign of a zero.

    Python exceptions are explicit: every operation that can raise
    ([/] on a zero divisor, [math.sqrt] on a negative argument, [range] with a
    zero step) returns a [result]. *)

From Stdlib Require Import Floats.
From Stdlib Require Import ZArith List Sorted String Ascii Bool Lia.
From Stdlib Require Import QArith Qreals Reals Lra Psatz.
From Stdlib Require DecimalString.
Import ListNotations.

(** ** Exceptions *)

Inductive exn : Type :=
| ZeroDivisionError
| ValueError.

Inductive result (A : Type) : Type :=
| Ok (a : A)
| Raise (e : exn).

Arguments Ok {A} a.
Arguments Raise {A} e.

Definition bind {A B : Type} (m : result A) (k : A -> result B) : result B :=
  match m with
  | Ok a => k a
  | Raise e => Raise e
  end.

Notation "x <- m ;; k" := (bind m (fun x => k))
  (at level 61, m at next level, right associativity).

Definition returns {A : Type} (m : result A) : Prop := exists a, m = Ok a.

(** ** The arithmetic of a Python [float] *)

Class PyFloat (F : Type) : Type := {
  of_int : Z -> F;              (* int -> float promotion in mixed arithmetic *)
  lit : Q -> F;                 (* a decimal literal of the source text *)
  fadd : F -> F -> F;
  fsub : F -> F -> F;
  fmul : F -> F -> F;
  fneg : F -> F;
  fdiv : F -> F -> result F;    (* raises ZeroDivisionError *)
  fsqrt : F -> result F;        (* math.sqrt, raises ValueError *)
  fltb : F -> F -> bool         (* a < b *)
}.

Declare Scope pyfloat_scope.
Delimit Scope pyfloat_scope with py.
Infix "+" := fadd : pyfloat_scope.
Infix "-" := fsub : pyfloat_scope.
Infix "*" := fmul : pyfloat_scope.
Notation "- x" := (fneg x) : pyfloat_scope.
Infix "/" := fdiv : pyfloat_scope.
Infix "<?" := fltb : pyfloat_scope.

(** ** [range(start, stop, step)] over Python ints *)

Definition range_length (start stop step : Z) : Z :=
  if (0 <? step)%Z then
    if (start <? stop)%Z then (1 + (stop - 1 - start) / step)%Z else 0%Z
  else
    if (stop <? start)%Z then (1 + (start - 1 - stop) / (- step))%Z else 0%Z.

Definition range_items (start stop step : Z) : list Z :=
  map (fun i => (start + Z.of_nat i * step)%Z)
      (seq 0 (Z.to_nat (range_length start stop step))).

Definition py_range (start stop step : Z) : result (list Z) :=
  if (step =? 0)%Z then Raise ValueError
  else Ok (range_items start stop step).

(** ** Strings of the generated markup *)

Definition dq : string := String (ascii_of_nat 34) EmptyString.
Definition nl : string := String (ascii_of_nat 10) EmptyString.

Definition str_int (z : Z) : string :=
  DecimalString.NilZero.string_of_int (Z.to_int z).

(** Python truthiness of a [str]: the empty string is false. *)
Definition truthy (s : string) : bool :=
  match s with
  | EmptyString => false
  | String _ _ => true
  end.

(** ** The class [HurricaneFlowField] *)

Section HurricaneFlowField.

Context {F : Type} `{PyFloat F}.

(** [f"{v:.2f}"] and [f"{v}"] of a float: the formatters are parameters of
    the model, no property below depends on the digits they print. *)
Variable fmt_2f : F -> string.
Variable fmt_str : F -> string.

Local Open Scope pyfloat_scope.

Record HurricaneFlowField : Type := {
  width : Z;
  height : Z;
  center_x : F;
  center_y : F;
  max_wind_speed : F;
  eye_radius : F
}.

(** The builtins [max(a, b)] and [min(a, b)]: the first argument is kept
    unless the second one compares strictly greater (smaller). *)
Definition py_max (a b : F) : F := if a <? b then b else a.
Definition py_min (a b : F) : F := if b <? a then b else a.

(** Lines 62-67: the two formulas for [omega]. *)
Definition omega_solid (self : HurricaneFlowField) : result F :=
  max_wind_speed self / eye_radius self.

Definition omega_potential (self : HurricaneFlowField) (r : F) : result F :=
  (max_wind_speed self * eye_radius self) / (r * r).

(** Lines 69-79: Cartesian components from [omega], plus the spiral term. *)
Definition velocity_of_omega (self : HurricaneFlowField)
    (dx dy r omega : F) : result (F * F) :=
  vx <- (- omega * dy) / r ;;
  vy <- (omega * dx) / r ;;
  q <- eye_radius self / py_max r (eye_radius self) ;;
  let radial_factor := lit 0.1 * (lit 1.0 - q) in
  ux <- (- dx) / r ;;
  let vx := vx + radial_factor * ux * max_wind_speed self * lit 0.1 in
  uy <- (- dy) / r ;;
  let vy := vy + radial_factor * uy * max_wind_speed self * lit 0.1 in
  Ok (vx, vy).

(** Lines 37-79. *)
Definition velocity_field (self : HurricaneFlowField) (x y : F)
    : result (F * F) :=
  let dx := x - center_x self in
  let dy := y - center_y self in
  r <- fsqrt (dx * dx + dy * dy) ;;
  if r <? lit 0.1 then Ok (lit 0.0, lit 0.0)
  else
    omega <- (if r <? eye_radius self
              then omega_solid self
              else omega_potential self r) ;;
    velocity_of_omega self dx dy r omega.

(** Lines 81-95: the nested loops, [x] outer and [y] inner, appending to
    [points]. *)
Fixpoint grid_rows (self : HurricaneFlowField) (spacing : Z)
    (points : list (Z * Z)) (xs : list Z) : result (list (Z * Z)) :=
  match xs with
  | [] => Ok points
  | x :: xs' =>
      ys <- py_range spacing (height self) spacing ;;
      grid_rows self spacing (points ++ map (fun y => (x, y)) ys) xs'
  end.

Definition generate_grid (self : HurricaneFlowField) (spacing : Z)
    : result (list (Z * Z)) :=
  xs <- py_range spacing (width self) spacing ;;
  grid_rows self spacing [] xs.

(** The points of one arrow, lines 113-145 of [arrow_path]. *)
Record ArrowGlyph : Type := {
  origin_x : F; origin_y : F;
  tip_x : F; tip_y : F;
  left_x : F; left_y : F;
  right_x : F; right_y : F
}.

Definition arrow_points (self : HurricaneFlowField)
    (x y vx vy scale arrow_length : F) : result (option ArrowGlyph) :=
  speed <- fsqrt (vx * vx + vy * vy) ;;
  if speed <? lit 0.01 then Ok None
  else
    ratio <- speed / max_wind_speed self ;;
    let length := arrow_length * scale * py_min ratio (lit 1.0) in
    vx_norm <- vx / speed ;;
    vy_norm <- vy / speed ;;
    let tip_x := x + vx_norm * length in
    let tip_y := y + vy_norm * length in
    let head_length := length * lit 0.3 in
    let head_width := length * lit 0.15 in
    let perp_x := - vy_norm in
    let perp_y := vx_norm in
    let head_base_x := tip_x - vx_norm * head_length in
    let head_base_y := tip_y - vy_norm * head_length in
    let left_x := head_base_x + perp_x * head_width in
    let left_y := head_base_y + perp_y * head_width in
    let right_x := head_base_x - perp_x * head_width in
    let right_y := head_base_y - perp_y * head_width in
    Ok (Some {| origin_x := x; origin_y := y;
                tip_x := tip_x; tip_y := tip_y;
                left_x := left_x; left_y := left_y;
                right_x := right_x; right_y := right_y |}).

(** Lines 147-150: the path text of an arrow. *)
Definition path_text (g : ArrowGlyph) : string :=
  ("M " ++ fmt_2f (origin_x g) ++ "," ++ fmt_2f (origin_y g)
   ++ " L " ++ fmt_2f (tip_x g) ++ "," ++ fmt_2f (tip_y g) ++ " "
   ++ "M " ++ fmt_2f (left_x g) ++ "," ++ fmt_2f (left_y g)
   ++ " L " ++ fmt_2f (tip_x g) ++ "," ++ fmt_2f (tip_y g) ++ " "
   ++ "L " ++ fmt_2f (right_x g) ++ "," ++ fmt_2f (right_y g))%string.

(** Lines 97-152: [arrow_path] returns the empty string for a skipped arrow. *)
Definition arrow_path (self : HurricaneFlowField)
    (x y vx vy scale arrow_length : F) : result string :=
  g <- arrow_points self x y vx vy scale arrow_length ;;
  Ok (match g with
      | None => EmptyString
      | Some g => path_text g
      end).

(** Lines 168-197: the header of the document. *)
Definition svg_header (self : HurricaneFlowField)
    (stroke_width : F) (stroke_color : string) : string :=
  ("<svg width=" ++ dq ++ str_int (width self) ++ dq
   ++ " height=" ++ dq ++ str_int (height self) ++ dq ++ " " ++ nl
   ++ "xmlns=" ++ dq ++ "http://www.w3.org/2000/svg" ++ dq ++ ">" ++ nl
   ++ "  <defs>" ++ nl
   ++ "    <style>" ++ nl
   ++ "      .flow-arrow {" ++ nl
   ++ "        stroke: " ++ stroke_color ++ ";" ++ nl
   ++ "        stroke-width: " ++ fmt_str stroke_width ++ ";" ++ nl
   ++ "        fill: none;" ++ nl
   ++ "        stroke-linecap: round;" ++ nl
   ++ "        stroke-linejoin: round;" ++ nl
   ++ "      }" ++ nl
   ++ "      .eye {" ++ nl
   ++ "        fill: rgba(200, 200, 200, 0.3);" ++ nl
   ++ "        stroke: rgba(100, 100, 100, 0.5);" ++ nl
   ++ "        stroke-width: 2;" ++ nl
   ++ "      }" ++ nl
   ++ "    </style>" ++ nl
   ++ "  </defs>" ++ nl
   ++ "  " ++ nl
   ++ "  <!-- Background -->" ++ nl
   ++ "  <rect width=" ++ dq ++ str_int (width self) ++ dq
   ++ " height=" ++ dq ++ str_int (height self) ++ dq
   ++ " fill=" ++ dq ++ "#f8f9fa" ++ dq ++ "/>" ++ nl
   ++ "  " ++ nl
   ++ "  <!-- Hurricane eye -->" ++ nl
   ++ "  <circle cx=" ++ dq ++ fmt_2f (center_x self) ++ dq
   ++ " cy=" ++ dq ++ fmt_2f (center_y self) ++ dq ++ " " ++ nl
   ++ "          r=" ++ dq ++ fmt_2f (eye_radius self) ++ dq
   ++ " class=" ++ dq ++ "eye" ++ dq ++ "/>" ++ nl
   ++ "  " ++ nl
   ++ "  <!-- Flow field arrows -->" ++ nl
   ++ "  <g class=" ++ dq ++ "flow-field" ++ dq ++ ">" ++ nl)%string.

(** Line 205: the element appended for one arrow. *)
Definition path_element (arrow_path : string) : string :=
  ("    <path d=" ++ dq ++ arrow_path ++ dq
   ++ " class=" ++ dq ++ "flow-arrow" ++ dq ++ "/>" ++ nl)%string.

Definition svg_footer : string := ("  </g>" ++ nl ++ "</svg>")%string.

(** The default of [arrow_path]'s parameter [arrow_length]. *)
Definition default_arrow_length : F := lit 20.0.

(** Lines 199-205: the loop over the grid points, appending to [svg]. *)
Fixpoint svg_arrows (self : HurricaneFlowField) (arrow_scale : F)
    (svg : string) (grid_points : list (Z * Z)) : result string :=
  match grid_points with
  | [] => Ok svg
  | (x, y) :: rest =>
      v <- velocity_field self (of_int x) (of_int y) ;;
      let '(vx, vy) := v in
      arrow_path <- arrow_path self (of_int x) (of_int y) vx vy
                      arrow_scale default_arrow_length ;;
      let svg := if truthy arrow_path
                 then (svg ++ path_element arrow_path)%string
                 else svg in
      svg_arrows self arrow_scale svg rest
  end.

(** The arrows that loop draws, as records: [svg_arrows] appends the
    [path_element] of each of them, in this order ([svg_arrows_glyphs]). *)
Fixpoint arrow_glyphs (self : HurricaneFlowField) (arrow_scale : F)
    (grid_points : list (Z * Z)) : result (list ArrowGlyph) :=
  match grid_points with
  | [] => Ok []
  | (x, y) :: rest =>
      v <- velocity_field self (of_int x) (of_int y) ;;
      g <- arrow_points self (of_int x) (of_int y) (fst v) (snd v)
             arrow_scale default_arrow_length ;;
      gs <- arrow_glyphs self arrow_scale rest ;;
      Ok (match g with
          | Some g => g :: gs
          | None => gs
          end)
  end.

(** The text of those arrows: one [path_element] per glyph. *)
Definition elements (gs : list ArrowGlyph) : string :=
  fold_right (fun g acc => (path_element (path_text g) ++ acc)%string)
             EmptyString gs.

(** Lines 154-211. *)
Definition generate_svg (self : HurricaneFlowField) (spacing : Z)
    (arrow_scale stroke_width : F) (stroke_color : string) : result string :=
  let svg := svg_header self stroke_width stroke_color in
  grid_points <- generate_grid self spacing ;;
  svg <- svg_arrows self arrow_scale svg grid_points ;;
  Ok (svg ++ svg_footer)%string.

End HurricaneFlowField.

(** ** The document as a reader sees it *)

(** Whether a text is free of the character [<]. *)
Fixpoint lt_free (s : string) : bool :=
  match s with
  | EmptyString => true
  | String c s' => negb (Ascii.eqb c "<") && lt_free s'
  end.

(** The number of path elements of a document: the places of its text where
    [<path ] starts. *)
Fixpoint count_paths (s : string) : nat :=
  match s with
  | EmptyString => 0
  | String _ s' =>
      ((if String.prefix "<path " s then 1 else 0) + count_paths s')%nat
  end.

(** Whether every [<] of a text has the five characters after it that
    [<path ] needs: then no path element can start in the text and end
    after it. *)
Fixpoint closed_text (a : string) : bool :=
  match a with
  | EmptyString => true
  | String c a' =>
      (negb (Ascii.eqb c "<") || (5 <=? String.length a')%nat)
      && closed_text a'
  end.

(** The glyphs among the per-point results of the loop. *)
Definition drawn {A : Type} (per : list (option A)) : list A :=
  flat_map (fun og => match og with
                      | Some g => [g]
                      | None => []
                      end) per.

Section Document.

Context {F : Type} `{PyFloat F}.
Variable fmt_2f : F -> string.
Variable fmt_str : F -> string.

Local Open Scope string_scope.

Definition quoted (s : string) : string := dq ++ s ++ dq.

(** The text [generate_svg] is to return for a list of arrows, written out
    line by line from the template of lines 169-197, the element of line 205
    with the path of lines 148-150, and the closing lines 208-209; the
    lines are joined by newlines. [generate_svg_text] proves that the code
    returns this text. *)
Definition svg_document (self : HurricaneFlowField)
    (stroke_width : F) (stroke_color : string) (arrows : list ArrowGlyph)
    : string :=
  let head :=
     ["<svg width=" ++ quoted (str_int (width self))
      ++ " height=" ++ quoted (str_int (height self)) ++ " ";
      "xmlns=" ++ quoted "http://www.w3.org/2000/svg" ++ ">";
      "  <defs>";
      "    <style>";
      "      .flow-arrow {";
      "        stroke: " ++ stroke_color ++ ";";
      "        stroke-width: " ++ fmt_str stroke_width ++ ";";
      "        fill: none;";
      "        stroke-linecap: round;";
      "        stroke-linejoin: round;";
      "      }";
      "      .eye {";
      "        fill: rgba(200, 200, 200, 0.3);";
      "        stroke: rgba(100, 100, 100, 0.5);";
      "        stroke-width: 2;";
      "      }";
      "    </style>";
      "  </defs>";
      "  ";
      "  <!-- Background -->";
      "  <rect width=" ++ quoted (str_int (width self))
      ++ " height=" ++ quoted (str_int (height self))
      ++ " fill=" ++ quoted "#f8f9fa" ++ "/>";
      "  ";
      "  <!-- Hurricane eye -->";
      "  <circle cx=" ++ quoted (fmt_2f (center_x self))
      ++ " cy=" ++ quoted (fmt_2f (center_y self)) ++ " ";
      "          r=" ++ quoted (fmt_2f (eye_radius self))
      ++ " class=" ++ quoted "eye" ++ "/>";
      "  ";
      "  <!-- Flow field arrows -->";
      "  <g class=" ++ quoted "flow-field" ++ ">"] in
  let body :=
     map (fun g =>
               "    <path d="
               ++ quoted ("M " ++ fmt_2f (origin_x g) ++ ","
                          ++ fmt_2f (origin_y g)
                          ++ " L " ++ fmt_2f (tip_x g) ++ ","
                          ++ fmt_2f (tip_y g)
                          ++ " M " ++ fmt_2f (left_x g) ++ ","
                          ++ fmt_2f (left_y g)
                          ++ " L " ++ fmt_2f (tip_x g) ++ ","
                          ++ fmt_2f (tip_y g)
                          ++ " L " ++ fmt_2f (right_x g) ++ ","
                          ++ fmt_2f (right_y g))
               ++ " class=" ++ quoted "flow-arrow" ++ "/>") arrows in
  let tail := ["  </g>"; "</svg>"] in
  String.concat nl (head ++ body ++ tail)%list.

(** Whether [og] is what the loop of [generate_svg] makes of the grid point
    [p]: no glyph exactly when the speed computed on line 114 is below 0.01
    (line 115), and otherwise a glyph that starts at [p]. *)
Definition sampled (self : HurricaneFlowField) (p : Z * Z)
    (og : option ArrowGlyph) : Prop :=
  exists vx vy speed : F,
    velocity_field self (of_int (fst p)) (of_int (snd p)) = Ok (vx, vy)
    /\ fsqrt (fadd (fmul vx vx) (fmul vy vy)) = Ok speed
    /\ (og = None <-> fltb speed (lit 0.01) = true)
    /\ (forall g, og = Some g ->
                  origin_x g = of_int (fst p) /\ origin_y g = of_int (snd p)).

End Document.

(** ** Construction, saving and [main] *)

(** What [save_svg] and [main] act on: the files, whether [open(path, 'w')]
    succeeds on a path, and the texts given to [print], oldest first. *)
Record World : Type := {
  files : string -> option string;
  writable : string -> bool;
  stdout : list string
}.

(** An exception of the computation, or the [OSError] of a refused
    [open]. *)
Inductive io_exn : Type :=
| Raised (e : exn)
| OSError.

(** How a procedure ends: normally, or with an exception, each time with the
    world it leaves. *)
Inductive outcome : Type :=
| Done (w : World)
| Failed (e : io_exn) (w : World).

(** [with open(path, 'w') as f: f.write(content)]: [open] may refuse the
    path. A write that fails once the file is open (a text that cannot be
    encoded, a full disk) is not part of this model. *)
Definition write_file (path content : string) (w : World) : outcome :=
  if writable w path
  then Done {| files := fun p => if String.eqb p path then Some content
                                 else files w p;
               writable := writable w;
               stdout := stdout w |}
  else Failed OSError w.

(** [print(text)]. *)
Definition print (text : string) (w : World) : World :=
  {| files := files w; writable := writable w;
     stdout := stdout w ++ [text] |}.

(** The value of a parameter that has a default. *)
Definition default {A : Type} (d : A) (given : option A) : A :=
  match given with
  | Some a => a
  | None => d
  end.

Section Persistence.

Context {F : Type} `{PyFloat F}.
Variable fmt_2f : F -> string.
Variable fmt_str : F -> string.

Local Open Scope pyfloat_scope.

(** Lines 16-35: [__init__]. The default center is [width / 2] and
    [height / 2], the true division of Python ints (the quotient of the
    promoted ints, for coordinates below [2^53]). *)
Definition init (width height : option Z) (center_x center_y : option F)
    (max_wind_speed eye_radius : option F) : result HurricaneFlowField :=
  let width := default 800%Z width in
  let height := default 600%Z height in
  center_x <- match center_x with
              | Some c => Ok c
              | None => of_int width / of_int 2
              end ;;
  center_y <- match center_y with
              | Some c => Ok c
              | None => of_int height / of_int 2
              end ;;
  Ok {| width := width; height := height;
        center_x := center_x; center_y := center_y;
        max_wind_speed := default (lit 50.0) max_wind_speed;
        eye_radius := default (lit 30.0) eye_radius |}.

(** The keyword arguments of [generate_svg], each with its default
    (line 154-155). *)
Record SvgKwargs : Type := {
  kw_spacing : option Z;
  kw_arrow_scale : option F;
  kw_stroke_width : option F;
  kw_stroke_color : option string
}.

Definition generate_svg_kw (self : HurricaneFlowField) (kwargs : SvgKwargs)
    : result string :=
  generate_svg fmt_2f fmt_str self
    (default 30%Z (kw_spacing kwargs))
    (default (lit 1.0) (kw_arrow_scale kwargs))
    (default (lit 1.5) (kw_stroke_width kwargs))
    (default "#0066cc"%string (kw_stroke_color kwargs)).

(** Lines 213-224: [save_svg]. *)
Definition save_svg (self : HurricaneFlowField) (filename : option string)
    (kwargs : SvgKwargs) (w : World) : outcome :=
  let filename := default "hurricane_flow_field.svg"%string filename in
  match generate_svg_kw self kwargs with
  | Raise e => Failed (Raised e) w
  | Ok svg_content =>
      match write_file filename svg_content w with
      | Failed e w => Failed e w
      | Done w => Done (print ("Flow field saved to " ++ filename)%string w)
      end
  end.

(** Lines 227-254: [main]. The attributes [center_x] and [center_y] hold the
    ints 400 and 300 that [main] passes, so [print] shows them as ints. *)
Definition main (w : World) : outcome :=
  match init (Some 800%Z) (Some 600%Z) (Some (of_int 400)) (Some (of_int 300))
             (Some (lit 60.0)) (Some (lit 40.0)) with
  | Raise e => Failed (Raised e) w
  | Ok flow_field =>
      match save_svg flow_field (Some "hurricane_flow_field.svg"%string)
              {| kw_spacing := Some 25%Z;
                 kw_arrow_scale := Some (lit 1.2);
                 kw_stroke_width := Some (lit 1.5);
                 kw_stroke_color := Some "#0066cc"%string |} w with
      | Failed e w => Failed e w
      | Done w =>
          let w := print (nl ++ "Hurricane flow field visualization complete!")
                     %string w in
          let w := print "Parameters:"%string w in
          let w := print ("  Canvas size: " ++ str_int (width flow_field)
                          ++ "x" ++ str_int (height flow_field))%string w in
          let w := print ("  Eye center: (" ++ str_int 400 ++ ", "
                          ++ str_int 300 ++ ")")%string w in
          let w := print ("  Eye radius: "
                          ++ fmt_str (eye_radius flow_field))%string w in
          let w := print ("  Max wind speed: "
                          ++ fmt_str (max_wind_speed flow_field))%string w in
          Done w
      end
  end.

End Persistence.

(** * The ideal instance: exact real arithmetic *)

Module Ideal.

Local Open Scope R_scope.

Definition Rltb (x y : R) : bool := if Rlt_dec x y then true else false.

#[export] Instance R_float : PyFloat R := {|
  of_int := IZR;
  lit := Q2R;
  fadd := Rplus;
  fsub := Rminus;
  fmul := Rmult;
  fneg := Ropp;
  fdiv := fun x y => if Req_dec_T y 0 then Raise ZeroDivisionError
                     else Ok (x / y);
  fsqrt := fun x => if Rlt_dec x 0 then Raise ValueError else Ok (sqrt x);
  fltb := Rltb
|}.

(** The distance of a point from the eye and the speed of a velocity. *)
Definition radius (self : @HurricaneFlowField R) (x y : R) : R :=
  sqrt ((x - center_x self) * (x - center_x self)
        + (y - center_y self) * (y - center_y self)).

Definition speed (v : R * R) : R := sqrt (fst v * fst v + snd v * snd v).

(** The shaft of an arrow: the distance from its origin to its tip. *)
Definition shaft_length (g : @ArrowGlyph R) : R :=
  sqrt ((tip_x g - origin_x g) * (tip_x g - origin_x g)
        + (tip_y g - origin_y g) * (tip_y g - origin_y g)).

(** Rotation of a point about the eye, and of a vector about the origin. *)
Definition rotate (theta : R) (v : R * R) : R * R :=
  (cos theta * fst v - sin theta * snd v,
   sin theta * fst v + cos theta * snd v).

Definition rotate_about (self : @HurricaneFlowField R) (theta : R)
    (p : R * R) : R * R :=
  let d := rotate theta (fst p - center_x self, snd p - center_y self) in
  (center_x self + fst d, center_y self + snd d).

(** Closed forms of [velocity_field] over the reals; [velocity_field_R]
    below proves that the embedded code computes them and never raises. *)
Definition omega_R (self : @HurricaneFlowField R) (r : R) : R :=
  if Rlt_dec r (eye_radius self)
  then max_wind_speed self / eye_radius self
  else max_wind_speed self * eye_radius self / (r * r).

Definition cartesian (self : @HurricaneFlowField R) (dx dy r w : R) : R * R :=
  let k := 1 / 10 * (1 - eye_radius self / Rmax r (eye_radius self)) in
  (- w * dy / r + k * (- dx / r) * max_wind_speed self * (1 / 10),
   w * dx / r + k * (- dy / r) * max_wind_speed self * (1 / 10)).

Definition velocity (self : @HurricaneFlowField R) (x y : R) : R * R :=
  let r := radius self x y in
  if Rlt_dec r (1 / 10) then (0, 0)
  else cartesian self (x - center_x self) (y - center_y self) r
         (omega_R self r).

(** Closed form of the arrow [arrow_points] builds for a velocity of speed
    at least 0.01 ([arrow_points_drawn] below). *)
Definition arrow_R (self : @HurricaneFlowField R)
    (x y vx vy scale arrow_length : R) : @ArrowGlyph R :=
  let s := speed (vx, vy) in
  let len := arrow_length * scale * Rmin (s / max_wind_speed self) 1 in
  let ux := vx / s in
  let uy := vy / s in
  let bx := x + ux * len - ux * (len * (3 / 10)) in
  let by_ := y + uy * len - uy * (len * (3 / 10)) in
  {| origin_x := x; origin_y := y;
     tip_x := x + ux * len; tip_y := y + uy * len;
     left_x := bx + - uy * (len * (15 / 100));
     left_y := by_ + ux * (len * (15 / 100));
     right_x := bx - - uy * (len * (15 / 100));
     right_y := by_ - ux * (len * (15 / 100)) |}.

(** What one grid point adds to the arrows of [generate_svg]
    ([arrow_glyphs_R] below). *)
Definition glyph_of (self : @HurricaneFlowField R) (scale : R)
    (p : Z * Z) : list (@ArrowGlyph R) :=
  let v := velocity self (IZR (fst p)) (IZR (snd p)) in
  if Rlt_dec (speed v) (1 / 100) then []
  else [arrow_R self (IZR (fst p)) (IZR (snd p)) (fst v) (snd v) scale 20].

End Ideal.

(** * The machine instance: IEEE 754 binary64 *)

Module Machine.

Local Open Scope float_scope.

(** [float(z)], the promotion of a Python int in mixed arithmetic: the
    binary64 value nearest to [z], ties to even. From [2^1024] on that is an
    infinity, where CPython raises [OverflowError]; ints that large are
    outside this instance. *)
Definition float_of_Z (z : Z) : float :=
  SF2Prim (binary_normalize prec emax z 0 false).

#[export] Instance binary64 : PyFloat float := {|
  of_int := float_of_Z;
  (* numerator and denominator of the source's literals are exact floats, so
     the correctly rounded quotient is the literal's value *)
  lit := fun q => float_of_Z (Qnum q) / float_of_Z (Zpos (Qden q));
  fadd := PrimFloat.add;
  fsub := PrimFloat.sub;
  fmul := PrimFloat.mul;
  fneg := PrimFloat.opp;
  fdiv := fun x y => if PrimFloat.eqb y 0 then Raise ZeroDivisionError
                     else Ok (x / y);
  fsqrt := fun x => if PrimFloat.ltb x 0 then Raise ValueError
                    else Ok (PrimFloat.sqrt x);
  fltb := PrimFloat.ltb
|}.

End Machine.

(** The rational a finite binary64 value stands for. *)
Definition float_to_Q (f : float) : option Q :=
  match Prim2SF f with
  | S754_zero _ => Some 0%Q
  | S754_finite s m e =>
      Some ((if s then - (Zpos m # 1) else (Zpos m # 1)) * (2 # 1) ^ e)%Q
  | S754_infinity _ | S754_nan => None
  end.

(** The field built by [main], lines 231-238. *)
Definition main_field {F : Type} `{PyFloat F} : @HurricaneFlowField F :=
  {| width := 800; height := 600;
     center_x := of_int 400; center_y := of_int 300;
     max_wind_speed := lit 60.0; eye_radius := lit 40.0 |}.

Import Ideal Machine.

(** ** Inputs of the examples *)

(** A formatter that prints nothing, for closed examples: the text of the
    numbers plays no part in any statement. *)
Definition blank {F : Type} (_ : F) : string := EmptyString.


(** The call of [main], lines 241-247. *)
Definition main_glyphs : result (list (@ArrowGlyph float)) :=
  grid_points <- generate_grid (@main_field float _) 25 ;;
  arrow_glyphs main_field (lit 1.2) grid_points.


(** A field without an eye. *)
Definition eyeless_field : @HurricaneFlowField R :=
  {| width := 800; height := 600;
     center_x := 400%R; center_y := 300%R;
     max_wind_speed := 50%R; eye_radius := 0%R |}.

(** The field of [main] moved by [(10, 20)] on another canvas, and the one
    with twice its wind speed. *)
Definition shifted_field : @HurricaneFlowField R :=
  {| width := 1000; height := 1000;
     center_x := 410%R; center_y := 320%R;
     max_wind_speed := lit 60.0; eye_radius := lit 40.0 |}.

Definition gale_field : @HurricaneFlowField R :=
  {| width := 800; height := 600;
     center_x := of_int 400; center_y := of_int 300;
     max_wind_speed := 120%R; eye_radius := lit 40.0 |}.

(** A world with no file, where every path can be written. *)
Definition fresh_world : World :=
  {| files := fun _ => None; writable := fun _ => true; stdout := [] |}.

(** The field of [main] with the opposite wind speed. *)
Definition reverse_field : @HurricaneFlowField R :=
  {| width := 800; height := 600;
     center_x := of_int 400; center_y := of_int 300;
     max_wind_speed := (-60)%R; eye_radius := lit 40.0 |}.

(** A field of wind speed 60 whose eye radius [-2^1023] makes
    [max_wind_speed * eye_radius] overflow, seen from the grid point
    [(25, 25)], half a unit from its center. *)
Definition nan_field : @HurricaneFlowField float :=
  {| width := 800; height := 600;
     center_x := lit 25.5; center_y := of_int 25;
     max_wind_speed := lit 60.0; eye_radius := (-0x1p1023)%float |}.

(** A canvas of three by three grid points at spacing 25, the middle one on
    the center of the eye. *)
Definition small_field : @HurricaneFlowField float :=
  {| width := 100; height := 100;
     center_x := of_int 50; center_y := of_int 50;
     max_wind_speed := lit 60.0; eye_radius := lit 40.0 |}.

(** * Properties that hold in every arithmetic *)

Section Generic.

Context {F : Type} `{PyFloat F}.
Variable fmt_2f : F -> string.
Variable fmt_str : F -> string.

Lemma bind_Ok (A B : Type) (a : A) (k : A -> result B) :
  bind (Ok a) k = k a.
Proof. reflexivity. Qed.

Lemma bind_returns (A B : Type) (m : result A) (k : A -> result B) (b : B) :
  bind m k = Ok b -> exists a, m = Ok a /\ k a = Ok b.
Proof. destruct m as [a | e]; cbn; [eauto | discriminate]. Qed.

(** The guard of line 58 decides alone: below the threshold the two zero
    literals are returned. *)
Lemma velocity_field_guard (self : HurricaneFlowField) (x y r : F) :
  fsqrt (fadd (fmul (fsub x (center_x self)) (fsub x (center_x self)))
              (fmul (fsub y (center_y self)) (fsub y (center_y self))))
  = Ok r ->
  fltb r (lit 0.1) = true ->
  velocity_field self x y = Ok (lit 0.0, lit 0.0).
Proof.
  intros Hr Hlt. unfold velocity_field. rewrite Hr. cbn [bind].
  now rewrite Hlt.
Qed.

Lemma truthy_path_text (g : ArrowGlyph) : truthy (path_text fmt_2f g) = true.
Proof. reflexivity. Qed.

Lemma string_app_assoc (a b c : string) :
  ((a ++ b) ++ c = a ++ (b ++ c))%string.
Proof. induction a as [| ch a IH]; cbn; [reflexivity | now rewrite IH]. Qed.

Lemma string_app_nil_r (a : string) : (a ++ EmptyString)%string = a.
Proof. induction a as [| ch a IH]; cbn; [reflexivity | now rewrite IH]. Qed.

Lemma svg_arrows_glyphs (self : HurricaneFlowField) (scale : F)
    (pts : list (Z * Z)) :
  forall svg,
    svg_arrows fmt_2f self scale svg pts
    = (gs <- arrow_glyphs self scale pts ;; Ok (svg ++ elements fmt_2f gs)%string).
Proof.
  induction pts as [| [x y] rest IH]; intros svg; cbn [svg_arrows arrow_glyphs].
  - cbn. now rewrite string_app_nil_r.
  - destruct (velocity_field self (of_int x) (of_int y)) as [[vx vy] | e];
      cbn [bind fst snd]; [| reflexivity].
    unfold arrow_path.
    destruct (arrow_points self (of_int x) (of_int y) vx vy scale
                default_arrow_length) as [[g |] | e]; cbn [bind];
      [| | reflexivity].
    + rewrite truthy_path_text, IH.
      destruct (arrow_glyphs self scale rest) as [gs | e]; cbn [bind];
        [| reflexivity].
      cbn [elements fold_right]. now rewrite string_app_assoc.
    + cbn [truthy]. rewrite IH.
      now destruct (arrow_glyphs self scale rest).
Qed.

End Generic.

(** * Properties over exact arithmetic *)

Section IdealArithmetic.

Local Open Scope R_scope.

Lemma fdiv_R (x y : R) : y <> 0 -> fdiv x y = Ok (x / y).
Proof.
  intros Hy. cbn [fdiv R_float].
  destruct (Req_dec_T y 0) as [E | _]; [contradiction | reflexivity].
Qed.

Lemma fdiv_R_zero (x : R) : fdiv x 0 = Raise ZeroDivisionError.
Proof.
  cbn [fdiv R_float].
  destruct (Req_dec_T 0 0) as [_ | N]; [reflexivity | now elim N].
Qed.

Lemma fsqrt_R (x : R) : 0 <= x -> fsqrt x = Ok (sqrt x).
Proof.
  intros Hx. cbn [fsqrt R_float].
  destruct (Rlt_dec x 0) as [L | _]; [lra | reflexivity].
Qed.

Lemma Rltb_lt (x y : R) : x < y -> Rltb x y = true.
Proof. intros L. unfold Rltb. destruct (Rlt_dec x y); [reflexivity | lra]. Qed.

Lemma Rltb_ge (x y : R) : y <= x -> Rltb x y = false.
Proof. intros L. unfold Rltb. destruct (Rlt_dec x y); [lra | reflexivity]. Qed.

Lemma Rltb_true_iff (x y : R) : Rltb x y = true <-> x < y.
Proof.
  unfold Rltb. destruct (Rlt_dec x y); split; intros; try easy; lra.
Qed.

Lemma Rltb_false_iff (x y : R) : Rltb x y = false <-> y <= x.
Proof.
  unfold Rltb. destruct (Rlt_dec x y); split; intros; try easy; lra.
Qed.

(** The literals of the source, as reals. *)
Lemma lit_0_0 : (lit 0.0 : R) = 0.
Proof. cbn [lit R_float]. unfold Q2R. cbn [Qnum Qden]. lra. Qed.

Lemma lit_1_0 : (lit 1.0 : R) = 1.
Proof. cbn [lit R_float]. unfold Q2R. cbn [Qnum Qden]. lra. Qed.

Lemma lit_0_1 : (lit 0.1 : R) = 1 / 10.
Proof. cbn [lit R_float]. unfold Q2R. cbn [Qnum Qden]. lra. Qed.

Lemma lit_0_01 : (lit 0.01 : R) = 1 / 100.
Proof. cbn [lit R_float]. unfold Q2R. cbn [Qnum Qden]. lra. Qed.

Lemma lit_0_3 : (lit 0.3 : R) = 3 / 10.
Proof. cbn [lit R_float]. unfold Q2R. cbn [Qnum Qden]. lra. Qed.

Lemma lit_0_15 : (lit 0.15 : R) = 15 / 100.
Proof. cbn [lit R_float]. unfold Q2R. cbn [Qnum Qden]. lra. Qed.

Lemma lit_20_0 : (lit 20.0 : R) = 20.
Proof. cbn [lit R_float]. unfold Q2R. cbn [Qnum Qden]. lra. Qed.

Lemma lit_40_0 : (lit 40.0 : R) = 40.
Proof. cbn [lit R_float]. unfold Q2R. cbn [Qnum Qden]. lra. Qed.

Lemma lit_60_0 : (lit 60.0 : R) = 60.
Proof. cbn [lit R_float]. unfold Q2R. cbn [Qnum Qden]. lra. Qed.

Lemma sum_sq_nonneg (a b : R) : 0 <= a * a + b * b.
Proof. nra. Qed.

Lemma sqrt_sum_sq_scale (k a b : R) :
  sqrt (k * a * (k * a) + k * b * (k * b)) = Rabs k * sqrt (a * a + b * b).
Proof.
  replace (k * a * (k * a) + k * b * (k * b))
    with (k * k * (a * a + b * b)) by ring.
  rewrite sqrt_mult_alt by nra.
  f_equal. change (k * k) with (Rsqr k). apply sqrt_Rsqr_abs.
Qed.

Lemma py_max_R (a b : R) : py_max a b = Rmax a b.
Proof.
  unfold py_max. cbn [fltb R_float]. unfold Rltb, Rmax.
  destruct (Rlt_dec a b), (Rle_dec a b); try reflexivity; lra.
Qed.

Lemma py_min_R (a b : R) : py_min a b = Rmin a b.
Proof.
  unfold py_min. cbn [fltb R_float]. unfold Rltb, Rmin.
  destruct (Rlt_dec b a), (Rle_dec a b); try reflexivity; lra.
Qed.

End IdealArithmetic.

Section IdealVelocity.

Local Open Scope R_scope.

Variable self : @HurricaneFlowField R.

Lemma velocity_of_omega_R (dx dy r w : R) :
  0 < r ->
  velocity_of_omega self dx dy r w = Ok (cartesian self dx dy r w).
Proof.
  intros Hr. unfold velocity_of_omega, cartesian.
  assert (Hm : Rmax r (eye_radius self) <> 0).
  { pose proof (Rmax_l r (eye_radius self)). lra. }
  rewrite py_max_R.
  rewrite !fdiv_R by (try assumption; lra).
  cbn [bind]. rewrite lit_0_1, lit_1_0.
  reflexivity.
Qed.

Lemma omega_solid_R :
  eye_radius self <> 0 ->
  omega_solid self = Ok (max_wind_speed self / eye_radius self).
Proof. intros. unfold omega_solid. now rewrite fdiv_R. Qed.

Lemma omega_potential_R (r : R) :
  r <> 0 ->
  omega_potential self r
  = Ok (max_wind_speed self * eye_radius self / (r * r)).
Proof.
  intros Hr. unfold omega_potential. cbn [fmul R_float].
  rewrite fdiv_R; [reflexivity |].
  now apply Rmult_integral_contrapositive_currified.
Qed.

(** Over the reals [velocity_field] never raises, and computes [velocity]. *)
Lemma velocity_field_R (x y : R) :
  velocity_field self x y = Ok (velocity self x y).
Proof.
  unfold velocity_field, velocity, radius.
  cbn [fsub fadd fmul R_float].
  rewrite fsqrt_R by apply sum_sq_nonneg.
  cbn [bind fltb R_float]. rewrite lit_0_1, lit_0_0.
  set (r := sqrt _).
  unfold Rltb at 1. destruct (Rlt_dec r (1 / 10)) as [_ | Hr]; [reflexivity |].
  assert (0 < r) by lra.
  unfold omega_R, Rltb.
  destruct (Rlt_dec r (eye_radius self)) as [He | He].
  - rewrite omega_solid_R by lra. cbn [bind]. now apply velocity_of_omega_R.
  - rewrite omega_potential_R by lra. cbn [bind]. now apply velocity_of_omega_R.
Qed.

(** Inside the eye and on its wall the spiral term vanishes. *)
Lemma cartesian_inside (dx dy r w : R) :
  0 < r -> r <= eye_radius self ->
  cartesian self dx dy r w = (- w * dy / r, w * dx / r).
Proof.
  intros Hr He. unfold cartesian.
  rewrite Rmax_right by lra.
  replace (eye_radius self / eye_radius self) with 1 by (field; lra).
  f_equal; lra.
Qed.

Lemma speed_tangential (dx dy w : R) :
  let r := sqrt (dx * dx + dy * dy) in
  0 < r ->
  speed (- w * dy / r, w * dx / r) = Rabs w.
Proof.
  intros r Hr. unfold speed. cbn [fst snd].
  replace (- w * dy / r * (- w * dy / r) + w * dx / r * (w * dx / r))
    with (w / r * dx * (w / r * dx) + w / r * dy * (w / r * dy))
    by (field; lra).
  rewrite sqrt_sum_sq_scale. fold r.
  unfold Rdiv. rewrite Rabs_mult, (Rabs_pos_eq (/ r)).
  - field; lra.
  - left. now apply Rinv_0_lt_compat.
Qed.

End IdealVelocity.

(** * The sampling grid *)

Section Grid.

Local Open Scope Z_scope.

Lemma py_range_ok (start stop step : Z) :
  step <> 0 -> py_range start stop step = Ok (range_items start stop step).
Proof.
  intros Hs. unfold py_range.
  destruct (Z.eqb_spec step 0); [contradiction | reflexivity].
Qed.

Lemma py_range_zero_step (start stop : Z) :
  py_range start stop 0 = Raise ValueError.
Proof. reflexivity. Qed.

Lemma range_length_pos_step (start stop step : Z) :
  0 < step ->
  range_length start stop step
  = if start <? stop then 1 + (stop - 1 - start) / step else 0.
Proof.
  intros Hs. unfold range_length.
  destruct (Z.ltb_spec 0 step); [reflexivity | lia].
Qed.

Lemma range_items_length (start stop step : Z) :
  List.length (range_items start stop step)
  = Z.to_nat (range_length start stop step).
Proof. unfold range_items. now rewrite length_map, length_seq. Qed.

Lemma affine_seq_sorted (start step : Z) (n : nat) :
  0 < step ->
  forall a : nat,
    StronglySorted Z.lt
      (map (fun i => start + Z.of_nat i * step) (seq a n)).
Proof.
  intros Hs. induction n as [| n IH]; intros a; cbn [seq map].
  - constructor.
  - constructor; [apply IH |].
    apply Forall_forall. intros z Hz.
    apply in_map_iff in Hz. destruct Hz as (i & <- & Hi).
    apply in_seq in Hi. nia.
Qed.

Lemma range_items_sorted (start stop step : Z) :
  0 < step -> StronglySorted Z.lt (range_items start stop step).
Proof. intros Hs. now apply affine_seq_sorted. Qed.

(** [range(spacing, stop, spacing)]: the multiples of [spacing] in
    [[spacing, stop)]. *)
Lemma range_items_In (spacing stop x : Z) :
  0 < spacing ->
  In x (range_items spacing stop spacing)
  <-> spacing <= x < stop /\ (spacing | x).
Proof.
  intros Hs. unfold range_items. rewrite range_length_pos_step by assumption.
  rewrite in_map_iff. split.
  - intros (i & <- & Hi). apply in_seq in Hi.
    destruct (Z.ltb_spec spacing stop) as [Hlt | Hge]; [| cbn in Hi; lia].
    assert (Hq : Z.of_nat i <= (stop - 1 - spacing) / spacing).
    { assert (0 <= (stop - 1 - spacing) / spacing)
        by (apply Z.div_pos; lia).
      lia. }
    pose proof (Z.mul_div_le (stop - 1 - spacing) spacing Hs) as Hm.
    split; [nia |].
    exists (Z.of_nat i + 1). ring.
  - intros ([Hlo Hhi] & k & ->).
    assert (Hk : 1 <= k) by nia.
    exists (Z.to_nat (k - 1)). split; [rewrite Z2Nat.id by lia; ring |].
    apply in_seq.
    destruct (Z.ltb_spec spacing stop) as [Hlt | Hge]; [| lia].
    assert (k - 1 <= (stop - 1 - spacing) / spacing).
    { apply Z.div_le_lower_bound; [assumption | nia]. }
    lia.
Qed.

End Grid.

Section GridOfField.

Context {F : Type} `{PyFloat F}.
Variable self : @HurricaneFlowField F.

Lemma grid_rows_ok (spacing : Z) (xs : list Z) :
  spacing <> 0%Z ->
  forall points,
    grid_rows self spacing points xs
    = Ok (points
          ++ flat_map (fun x => map (fun y => (x, y))
                                 (range_items spacing (height self) spacing))
                      xs).
Proof.
  intros Hs. induction xs as [| x xs IH]; intros points; cbn [grid_rows flat_map].
  - now rewrite app_nil_r.
  - rewrite py_range_ok by assumption. cbn [bind].
    rewrite IH. now rewrite <- app_assoc.
Qed.

Lemma generate_grid_ok (spacing : Z) :
  spacing <> 0%Z ->
  generate_grid self spacing
  = Ok (flat_map (fun x => map (fun y => (x, y))
                             (range_items spacing (height self) spacing))
                 (range_items spacing (width self) spacing)).
Proof.
  intros Hs. unfold generate_grid.
  rewrite py_range_ok by assumption. cbn [bind].
  now rewrite grid_rows_ok.
Qed.

Lemma generate_grid_zero : generate_grid self 0 = Raise ValueError.
Proof. reflexivity. Qed.

Lemma flat_map_pairs_length (xs ys : list Z) :
  List.length (flat_map (fun x => map (fun y => (x, y)) ys) xs)
  = (List.length xs * List.length ys)%nat.
Proof.
  induction xs as [| x xs IH]; cbn [flat_map List.length]; [reflexivity |].
  rewrite length_app, length_map, IH. lia.
Qed.

End GridOfField.

(** * The claims about the grid and the velocity field *)

Section GridClaims.

Context {F : Type} `{PyFloat F}.

(** C7. For a positive [spacing], [generate_grid] returns the points [(x, y)]
    with [x] over the multiples of [spacing] in [[spacing, width)] and [y]
    over those in [[spacing, height)], both increasing, [x] in the outer loop
    and [y] in the inner one; on the 800 by 600 canvas with spacing 25 that is
    [floor((800-25)/25) * floor((600-25)/25) = 31 * 23 = 713] points. *)
Theorem generate_grid_spec (self : @HurricaneFlowField F) (spacing : Z) :
  (0 < spacing)%Z ->
  exists xs ys : list Z,
    generate_grid self spacing
    = Ok (flat_map (fun x => map (fun y => (x, y)) ys) xs)
    /\ (forall x, In x xs
                  <-> (spacing <= x < width self)%Z /\ (spacing | x)%Z)
    /\ (forall y, In y ys
                  <-> (spacing <= y < height self)%Z /\ (spacing | y)%Z)
    /\ StronglySorted Z.lt xs
    /\ StronglySorted Z.lt ys
    /\ (width self = 800%Z -> height self = 600%Z -> spacing = 25%Z ->
        List.length xs = 31%nat /\ List.length ys = 23%nat
        /\ List.length (flat_map (fun x => map (fun y => (x, y)) ys) xs)
           = 713%nat
        /\ ((800 - 25) / 25 * ((600 - 25) / 25) = 713)%Z).
Proof.
  intros Hs.
  exists (range_items spacing (width self) spacing),
         (range_items spacing (height self) spacing).
  split; [apply generate_grid_ok; lia |].
  split; [intros x; now apply range_items_In |].
  split; [intros y; now apply range_items_In |].
  split; [now apply range_items_sorted |].
  split; [now apply range_items_sorted |].
  intros Hw Hh ->. rewrite flat_map_pairs_length, !range_items_length, Hw, Hh.
  repeat split; reflexivity.
Qed.

End GridClaims.

Lemma generate_grid_spec_witness :
  exists grid : list (Z * Z),
    generate_grid (@main_field float _) 25 = Ok grid
    /\ List.length grid = 713%nat
    /\ nth_error grid 0 = Some (25, 25)%Z
    /\ nth_error grid 1 = Some (25, 50)%Z
    /\ nth_error grid 23 = Some (50, 25)%Z
    /\ nth_error grid 712 = Some (775, 575)%Z.
Proof.
  destruct (generate_grid_spec (@main_field float _) 25)
    as (xs & ys & Hg & _ & _ & _ & _ & Hn); [reflexivity |].
  eexists. split; [exact Hg |].
  split; [apply Hn; reflexivity |].
  rewrite generate_grid_ok in Hg by discriminate.
  injection Hg as <-. repeat split; reflexivity.
Defined.

Section VelocityClaims.

Local Open Scope R_scope.

Variable self : @HurricaneFlowField R.

(** C5. Every point closer than 0.1 to the eye's center has velocity
    exactly [(0, 0)], whatever the configuration. *)
Theorem center_dead_zone (x y : R) :
  radius self x y < 0.1 ->
  velocity_field self x y = Ok (0, 0).
Proof.
  intros Hr. rewrite velocity_field_R. unfold velocity.
  destruct (Rlt_dec (radius self x y) (1 / 10)) as [_ | N];
    [reflexivity | lra].
Qed.

(** The velocity inside the eye, in closed form. *)
Lemma velocity_inside_eye (x y : R) :
  0.1 <= radius self x y < eye_radius self ->
  exists v : R * R,
    velocity_field self x y = Ok v
    /\ v = (- (max_wind_speed self / eye_radius self) * (y - center_y self)
              / radius self x y,
            max_wind_speed self / eye_radius self * (x - center_x self)
              / radius self x y)
    /\ speed v = Rabs (max_wind_speed self) / eye_radius self
    /\ (0 <= max_wind_speed self ->
        speed v = max_wind_speed self / eye_radius self).
Proof.
  intros [Hlo Hhi].
  assert (Hr : 0 < radius self x y) by lra.
  eexists. split; [apply velocity_field_R |].
  unfold velocity.
  destruct (Rlt_dec (radius self x y) (1 / 10)) as [L | _]; [lra |].
  unfold omega_R.
  destruct (Rlt_dec (radius self x y) (eye_radius self)) as [_ | N]; [| lra].
  rewrite cartesian_inside by lra.
  split; [reflexivity |].
  assert (Hs : speed
                 (- (max_wind_speed self / eye_radius self)
                    * (y - center_y self) / radius self x y,
                  max_wind_speed self / eye_radius self
                    * (x - center_x self) / radius self x y)
               = Rabs (max_wind_speed self) / eye_radius self).
  { unfold radius in *. rewrite speed_tangential by assumption.
    unfold Rdiv. rewrite Rabs_mult, (Rabs_pos_eq (/ eye_radius self));
      [reflexivity |].
    left. apply Rinv_0_lt_compat. lra. }
  split; [exact Hs |].
  intros Hw. rewrite Hs. now rewrite Rabs_pos_eq.
Qed.

(** C10, amended. In exact arithmetic, at a point with
    [0.1 <= r < eye_radius] the velocity is the purely tangential vector
    [(-w*dy/r, w*dx/r)] with [w = max_wind_speed / eye_radius] (the spiral
    term adds exactly zero), so its magnitude is
    [|max_wind_speed| / eye_radius], that is [max_wind_speed / eye_radius]
    for a non-negative wind speed: the same at every such point, it does not
    grow with [r]. *)
Theorem eye_speed_constant (x y : R) :
  0.1 < eye_radius self ->
  0.1 <= radius self x y < eye_radius self ->
  exists v : R * R,
    velocity_field self x y = Ok v
    /\ v = (- (max_wind_speed self / eye_radius self) * (y - center_y self)
              / radius self x y,
            max_wind_speed self / eye_radius self * (x - center_x self)
              / radius self x y)
    /\ speed v = Rabs (max_wind_speed self) / eye_radius self
    /\ (0 <= max_wind_speed self ->
        speed v = max_wind_speed self / eye_radius self).
Proof. intros _ Hr. now apply velocity_inside_eye. Qed.


Lemma radius_rotate_about (theta x y : R) :
  radius self (fst (rotate_about self theta (x, y)))
              (snd (rotate_about self theta (x, y)))
  = radius self x y.
Proof.
  unfold radius, rotate_about, rotate. cbn [fst snd]. f_equal.
  pose proof (sin2_cos2 theta) as E. unfold Rsqr in E.
  set (dx := x - center_x self). set (dy := y - center_y self).
  replace (center_x self + (cos theta * dx - sin theta * dy) - center_x self)
    with (cos theta * dx - sin theta * dy) by ring.
  replace (center_y self + (sin theta * dx + cos theta * dy) - center_y self)
    with (sin theta * dx + cos theta * dy) by ring.
  replace ((cos theta * dx - sin theta * dy)
           * (cos theta * dx - sin theta * dy)
           + (sin theta * dx + cos theta * dy)
             * (sin theta * dx + cos theta * dy))
    with ((sin theta * sin theta + cos theta * cos theta)
          * (dx * dx + dy * dy)) by ring.
  rewrite E. ring.
Qed.

(** C9. Rotating a point about the eye's center by [theta] rotates its
    velocity by [theta]. *)
Theorem rotational_symmetry (theta x y : R) :
  exists v : R * R,
    velocity_field self x y = Ok v
    /\ velocity_field self
         (fst (rotate_about self theta (x, y)))
         (snd (rotate_about self theta (x, y)))
       = Ok (rotate theta v).
Proof.
  exists (velocity self x y). split; [apply velocity_field_R |].
  rewrite velocity_field_R. f_equal.
  unfold velocity. rewrite radius_rotate_about.
  destruct (Rlt_dec (radius self x y) (1 / 10)) as [_ | Hr].
  - unfold rotate. cbn [fst snd]. f_equal; ring.
  - assert (Hpos : 0 < radius self x y) by lra.
    assert (Hm : Rmax (radius self x y) (eye_radius self) <> 0).
    { pose proof (Rmax_l (radius self x y) (eye_radius self)). lra. }
    unfold cartesian, rotate_about, rotate. cbn [fst snd].
    f_equal; field; split; (assumption || lra).
Qed.

End VelocityClaims.

(** * The field of [main] *)

Section MainField.

Local Open Scope R_scope.

Lemma main_eye_radius : eye_radius (@main_field R _) = 40.
Proof. apply lit_40_0. Qed.

Lemma main_max_wind_speed : max_wind_speed (@main_field R _) = 60.
Proof. apply lit_60_0. Qed.

(** A point straight below the center, [d] away from it. *)
Lemma main_radius_below (d : R) :
  0 <= d -> radius (@main_field R _) 400 (300 + d) = d.
Proof.
  intros Hd. unfold radius. cbn [center_x center_y main_field of_int R_float].
  replace ((400 - 400) * (400 - 400) + (300 + d - 300) * (300 + d - 300))
    with (d * d) by ring.
  now apply sqrt_square.
Qed.

Lemma speed_horizontal (a : R) : speed (a, 0) = Rabs a.
Proof.
  unfold speed. cbn [fst snd].
  replace (a * a + 0 * 0) with (Rsqr a) by (unfold Rsqr; ring).
  apply sqrt_Rsqr_abs.
Qed.

End MainField.

Lemma center_dead_zone_witness :
  (radius (@main_field R _) 400 (300 + 0.05) < 0.1)%R
  /\ velocity_field (@main_field R _) 400%R (300 + 0.05)%R = Ok (0%R, 0%R).
Proof.
  assert (H : (radius (@main_field R _) 400 (300 + 0.05) < 0.1)%R)
    by (rewrite main_radius_below; lra).
  split; [exact H | exact (center_dead_zone main_field 400 (300 + 0.05) H)].
Defined.

Lemma eye_speed_constant_witness :
  exists v : R * R,
    velocity_field (@main_field R _) 400%R (300 + 10)%R = Ok v
    /\ speed v = (60 / 40)%R.
Proof.
  assert (He : (0.1 < eye_radius (@main_field R _))%R)
    by (rewrite main_eye_radius; lra).
  assert (Hr : (0.1 <= radius (@main_field R _) 400 (300 + 10)
                < eye_radius (@main_field R _))%R)
    by (rewrite main_eye_radius, main_radius_below; lra).
  destruct (eye_speed_constant main_field 400 (300 + 10) He Hr)
    as (v & Hv & _ & _ & Hs).
  exists v. split; [exact Hv |].
  rewrite main_max_wind_speed, main_eye_radius in Hs. apply Hs. lra.
Defined.


(** C1, evaluated. With the configuration of [main] the velocity at
    [(400, 340)], on the eye wall, is [(-1.5, 0)] in exact and in binary64
    arithmetic: its magnitude is [60 / 40 = 1.5], not 60; and the points
    [(400, 310)] and [(400, 330)], at distances 10 and 30 from the center,
    have that same speed. *)
Theorem main_eye_wall_velocity :
  velocity_field (@main_field R _) 400%R 340%R = Ok ((- (3 / 2))%R, 0%R)
  /\ speed ((- (3 / 2))%R, 0%R) = (3 / 2)%R
  /\ velocity_field (@main_field float _) (of_int 400) (of_int 340)
     = Ok ((-1.5)%float, 0%float)
  /\ (exists v1 v2 : R * R,
        velocity_field (@main_field R _) 400%R 310%R = Ok v1
        /\ velocity_field (@main_field R _) 400%R 330%R = Ok v2
        /\ speed v1 = (3 / 2)%R /\ speed v2 = (3 / 2)%R).
Proof.
  split; [| split; [| split]].
  - replace 340%R with (300 + 40)%R by lra.
    rewrite velocity_field_R. unfold velocity.
    rewrite main_radius_below by lra.
    destruct (Rlt_dec 40 (1 / 10)) as [L | _]; [lra |].
    unfold omega_R. rewrite main_eye_radius, main_max_wind_speed.
    destruct (Rlt_dec 40 40) as [L | _]; [lra |].
    rewrite cartesian_inside by (rewrite ?main_eye_radius; lra).
    cbn [center_x center_y main_field of_int R_float].
    apply f_equal. f_equal; field.
  - rewrite speed_horizontal, Rabs_Ropp, Rabs_pos_eq; lra.
  - vm_compute. reflexivity.
  - assert (H1 : (0.1 <= radius (@main_field R _) 400 (300 + 10)
                  < eye_radius (@main_field R _))%R)
      by (rewrite main_eye_radius, main_radius_below; lra).
    assert (H2 : (0.1 <= radius (@main_field R _) 400 (300 + 30)
                  < eye_radius (@main_field R _))%R)
      by (rewrite main_eye_radius, main_radius_below; lra).
    destruct (velocity_inside_eye main_field _ _ H1)
      as (v1 & Hv1 & _ & _ & Hs1).
    destruct (velocity_inside_eye main_field _ _ H2)
      as (v2 & Hv2 & _ & _ & Hs2).
    exists v1, v2.
    replace 310%R with (300 + 10)%R by lra.
    replace 330%R with (300 + 30)%R by lra.
    rewrite main_max_wind_speed, main_eye_radius in Hs1, Hs2.
    repeat split; try assumption; [rewrite Hs1 | rewrite Hs2]; lra.
Qed.

(** * Arrows over exact arithmetic *)

Section IdealArrows.

Local Open Scope R_scope.

Variable self : @HurricaneFlowField R.

Lemma speed_nonneg (v : R * R) : 0 <= speed v.
Proof. apply sqrt_pos. Qed.

Lemma arrow_points_skipped (x y vx vy scale al : R) :
  speed (vx, vy) < 0.01 ->
  arrow_points self x y vx vy scale al = Ok None.
Proof.
  intros Hs. unfold arrow_points. cbn [fadd fmul R_float].
  rewrite fsqrt_R by apply sum_sq_nonneg. cbn [bind fltb R_float].
  rewrite lit_0_01. unfold speed in Hs. cbn [fst snd] in Hs.
  rewrite Rltb_lt by lra. reflexivity.
Qed.

Lemma arrow_points_drawn (x y vx vy scale al : R) :
  0.01 <= speed (vx, vy) ->
  max_wind_speed self <> 0 ->
  arrow_points self x y vx vy scale al
  = Ok (Some (arrow_R self x y vx vy scale al)).
Proof.
  intros Hs Hw. unfold arrow_points, arrow_R. cbn [fadd fmul R_float].
  rewrite fsqrt_R by apply sum_sq_nonneg. cbn [bind fltb R_float].
  rewrite lit_0_01. unfold speed in *. cbn [fst snd] in *.
  rewrite Rltb_ge by lra.
  rewrite !fdiv_R by (try assumption; lra). cbn [bind].
  rewrite py_min_R, lit_1_0, lit_0_3, lit_0_15.
  reflexivity.
Qed.

Lemma arrow_points_zero_wind (x y vx vy scale al : R) :
  0.01 <= speed (vx, vy) ->
  max_wind_speed self = 0 ->
  arrow_points self x y vx vy scale al = Raise ZeroDivisionError.
Proof.
  intros Hs Hw. unfold arrow_points. cbn [fadd fmul R_float].
  rewrite fsqrt_R by apply sum_sq_nonneg. cbn [bind fltb R_float].
  rewrite lit_0_01. unfold speed in *. cbn [fst snd] in *.
  rewrite Rltb_ge by lra.
  rewrite Hw, fdiv_R_zero. reflexivity.
Qed.

(** The shaft of [arrow_R] is as long as the clipped length says. *)
Lemma shaft_length_arrow_R (x y vx vy scale al : R) :
  0 < speed (vx, vy) ->
  shaft_length (arrow_R self x y vx vy scale al)
  = Rabs (al * scale * Rmin (speed (vx, vy) / max_wind_speed self) 1).
Proof.
  intros Hs. unfold shaft_length, arrow_R. cbn [origin_x origin_y tip_x tip_y].
  set (s := speed (vx, vy)) in *.
  set (len := al * scale * Rmin (s / max_wind_speed self) 1).
  replace ((x + vx / s * len - x) * (x + vx / s * len - x)
           + (y + vy / s * len - y) * (y + vy / s * len - y))
    with (len / s * vx * (len / s * vx) + len / s * vy * (len / s * vy))
    by (field; lra).
  rewrite sqrt_sum_sq_scale.
  change (sqrt (vx * vx + vy * vy)) with s.
  unfold Rdiv. rewrite Rabs_mult, (Rabs_pos_eq (/ s)).
  - field; lra.
  - left. now apply Rinv_0_lt_compat.
Qed.

End IdealArrows.

(** C4, amended. In exact arithmetic, with a positive [max_wind_speed] and
    a non-negative [arrow_length * scale], [arrow_path] draws no arrow for a
    speed below 0.01 and otherwise an arrow whose shaft, from origin to tip,
    has length [arrow_length * scale * min(speed / max_wind_speed, 1)], at
    most [arrow_length * scale] however large the speed. *)
Theorem shaft_length_clipped (self : @HurricaneFlowField R)
    (x y vx vy scale al : R) :
  (0 < max_wind_speed self)%R ->
  (0 <= al * scale)%R ->
  exists og : option (@ArrowGlyph R),
    arrow_points self x y vx vy scale al = Ok og
    /\ match og with
       | None => (speed (vx, vy) < 0.01)%R
       | Some g =>
           (0.01 <= speed (vx, vy))%R
           /\ shaft_length g
              = (al * scale
                 * Rmin (speed (vx, vy) / max_wind_speed self) 1)%R
           /\ (shaft_length g <= al * scale)%R
       end.
Proof.
  intros Hw Hl.
  destruct (Rlt_dec (speed (vx, vy)) 0.01) as [Hs | Hs].
  - exists None. split; [now apply arrow_points_skipped | exact Hs].
  - exists (Some (arrow_R self x y vx vy scale al)).
    split; [apply arrow_points_drawn; lra |].
    assert (Hm : (0 <= Rmin (speed (vx, vy) / max_wind_speed self) 1)%R).
    { apply Rmin_glb; [| lra].
      apply Rmult_le_pos; [lra |]. left. now apply Rinv_0_lt_compat. }
    pose proof (Rmin_r (speed (vx, vy) / max_wind_speed self) 1) as Hr.
    rewrite shaft_length_arrow_R by lra.
    rewrite Rabs_pos_eq by now apply Rmult_le_pos.
    repeat split; [lra | nra].
Qed.

Lemma shaft_length_clipped_witness :
  exists g : @ArrowGlyph R,
    arrow_points (@main_field R _) 400%R 310%R 100%R 0%R 1.2%R 20%R
    = Ok (Some g)
    /\ shaft_length g = (20 * 1.2)%R.
Proof.
  assert (Hw : (0 < max_wind_speed (@main_field R _))%R)
    by (rewrite main_max_wind_speed; lra).
  assert (Hl : (0 <= 20 * 1.2)%R) by lra.
  destruct (shaft_length_clipped main_field 400 310 100 0 1.2 20 Hw Hl)
    as (og & Hog & Hg).
  rewrite speed_horizontal, Rabs_pos_eq, main_max_wind_speed in Hg by lra.
  destruct og as [g |]; [| lra].
  exists g. split; [exact Hog |].
  destruct Hg as (_ & Hlen & _). rewrite Hlen, Rmin_right by lra. lra.
Defined.

(** * The document over exact arithmetic *)

Section IdealDocument.

Local Open Scope R_scope.

Variable fmt_2f : R -> string.
Variable fmt_str : R -> string.
Variable self : @HurricaneFlowField R.

Lemma velocity_zero_wind (x y : R) :
  max_wind_speed self = 0 -> velocity self x y = (0, 0).
Proof.
  intros Hw. unfold velocity.
  destruct (Rlt_dec (radius self x y) (1 / 10)); [reflexivity |].
  unfold cartesian, omega_R.
  destruct (Rlt_dec (radius self x y) (eye_radius self));
    rewrite Hw; f_equal; unfold Rdiv; ring.
Qed.

Lemma speed_zero : speed (0, 0) = 0.
Proof. rewrite speed_horizontal. apply Rabs_R0. Qed.

(** A velocity of the field that is fast enough to draw has a wind speed to
    divide by. *)
Lemma drawn_wind_nonzero (x y : R) :
  0.01 <= speed (velocity self x y) -> max_wind_speed self <> 0.
Proof.
  intros Hs Hw. rewrite (velocity_zero_wind x y Hw), speed_zero in Hs. lra.
Qed.

Lemma arrow_glyphs_R (scale : R) (pts : list (Z * Z)) :
  arrow_glyphs self scale pts = Ok (flat_map (glyph_of self scale) pts).
Proof.
  induction pts as [| [x y] rest IH]; cbn [arrow_glyphs flat_map];
    [reflexivity |].
  cbn [of_int R_float]. rewrite velocity_field_R. cbn [bind].
  unfold glyph_of at 1. cbn [fst snd].
  set (v := velocity self (IZR x) (IZR y)).
  unfold default_arrow_length. rewrite lit_20_0.
  destruct (Rlt_dec (speed v) (1 / 100)) as [Hs | Hs].
  - rewrite arrow_points_skipped
      by (destruct v; cbn [fst snd]; lra).
    cbn [bind]. rewrite IH. reflexivity.
  - rewrite arrow_points_drawn.
    + cbn [bind]. rewrite IH. reflexivity.
    + destruct v; cbn [fst snd]; lra.
    + apply (drawn_wind_nonzero (IZR x) (IZR y)). fold v. lra.
Qed.

Lemma glyph_of_length (scale : R) (p : Z * Z) :
  (List.length (glyph_of self scale p) <= 1)%nat.
Proof.
  unfold glyph_of. destruct (Rlt_dec _ _); cbn; lia.
Qed.

Lemma glyphs_length (scale : R) (pts : list (Z * Z)) :
  (List.length (flat_map (glyph_of self scale) pts) <= List.length pts)%nat.
Proof.
  induction pts as [| p rest IH]; cbn [flat_map List.length]; [lia |].
  rewrite length_app. pose proof (glyph_of_length scale p). lia.
Qed.

Lemma glyph_of_origin (scale : R) (p : Z * Z) (g : @ArrowGlyph R) :
  In g (glyph_of self scale p) ->
  origin_x g = IZR (fst p) /\ origin_y g = IZR (snd p)
  /\ 0.01 <= speed (velocity self (IZR (fst p)) (IZR (snd p))).
Proof.
  unfold glyph_of. destruct (Rlt_dec _ _) as [Hs | Hs]; [intros [] |].
  intros [<- | []]. cbn [arrow_R origin_x origin_y]. repeat split. lra.
Qed.

Lemma generate_svg_R (spacing : Z) (scale sw : R) (sc : string) :
  spacing <> 0%Z ->
  exists grid : list (Z * Z),
    generate_grid self spacing = Ok grid
    /\ arrow_glyphs self scale grid = Ok (flat_map (glyph_of self scale) grid)
    /\ generate_svg fmt_2f fmt_str self spacing scale sw sc
       = Ok (svg_header fmt_2f fmt_str self sw sc
             ++ elements fmt_2f (flat_map (glyph_of self scale) grid)
             ++ svg_footer)%string.
Proof.
  intros Hs. eexists. split; [now apply generate_grid_ok |].
  split; [apply arrow_glyphs_R |].
  unfold generate_svg. rewrite generate_grid_ok by assumption. cbn [bind].
  rewrite svg_arrows_glyphs, arrow_glyphs_R. cbn [bind].
  now rewrite string_app_assoc.
Qed.

End IdealDocument.

(** * Checks in binary64 arithmetic *)

Section MachineChecks.

(** The center of the canvas of [main] is in the dead zone. *)
Example machine_center_velocity :
  velocity_field (@main_field float _) (of_int 400) (of_int 300)
  = Ok (0%float, 0%float).
Proof.
  rewrite (velocity_field_guard main_field _ _ 0%float); reflexivity.
Qed.

(** [main] draws 712 arrows: every grid point but the center. *)
Example machine_main_glyph_count :
  exists gs, main_glyphs = Ok gs /\ List.length gs = 712%nat.
Proof. vm_compute. eexists. split; reflexivity. Qed.

End MachineChecks.

(** * Further properties of the velocity field *)

Section VelocityFurther.

Local Open Scope R_scope.

Variable self : @HurricaneFlowField R.

Lemma radius_sqr (x y : R) :
  radius self x y * radius self x y
  = (x - center_x self) * (x - center_x self)
    + (y - center_y self) * (y - center_y self).
Proof. unfold radius. apply sqrt_sqrt, sum_sq_nonneg. Qed.

(** The velocity outside the dead zone, by its radial and tangential
    parts. *)
Lemma cartesian_parts (dx dy r w : R) :
  0 < r -> r * r = dx * dx + dy * dy ->
  let c := 1 / 10 * (1 - eye_radius self / Rmax r (eye_radius self))
           * max_wind_speed self * (1 / 10) in
  let v := cartesian self dx dy r w in
  dx * snd v - dy * fst v = w * r
  /\ dx * fst v + dy * snd v = - c * r
  /\ fst v * fst v + snd v * snd v = w * w + c * c.
Proof.
  intros Hr Hrr c v. unfold v, cartesian. cbn [fst snd]. fold c.
  assert (Hm : Rmax r (eye_radius self) <> 0).
  { pose proof (Rmax_l r (eye_radius self)). lra. }
  set (k := 1 / 10 * (1 - eye_radius self / Rmax r (eye_radius self))) in *.
  assert (Hk : k * max_wind_speed self * (1 / 10) = c) by reflexivity.
  clearbody k. clearbody c.
  replace (k * (- dx / r) * max_wind_speed self * (1 / 10))
    with (- c * dx / r) by (rewrite <- Hk; field; lra).
  replace (k * (- dy / r) * max_wind_speed self * (1 / 10))
    with (- c * dy / r) by (rewrite <- Hk; field; lra).
  repeat split.
  - replace (dx * (w * dx / r + - c * dy / r)
             - dy * (- w * dy / r + - c * dx / r))
      with (w * (dx * dx + dy * dy) / r) by (field; lra).
    rewrite <- Hrr. field; lra.
  - replace (dx * (- w * dy / r + - c * dx / r)
             + dy * (w * dx / r + - c * dy / r))
      with (- c * (dx * dx + dy * dy) / r) by (field; lra).
    rewrite <- Hrr. field; lra.
  - replace ((- w * dy / r + - c * dx / r) * (- w * dy / r + - c * dx / r)
             + (w * dx / r + - c * dy / r) * (w * dx / r + - c * dy / r))
      with ((w * w + c * c) * (dx * dx + dy * dy) / (r * r))
      by (field; lra).
    rewrite <- Hrr. field; lra.
Qed.

(** X1. Over the reals [velocity_field] raises nothing, whatever the
    configuration and the point: the dead zone keeps every divisor away from
    zero, also for a zero or negative eye radius. *)
Theorem velocity_field_never_raises (x y : R) :
  returns (velocity_field self x y).
Proof. exists (velocity self x y). apply velocity_field_R. Qed.

(** X2. Outside the dead zone the flow turns about the center and drifts
    towards it: inside the eye the velocity is orthogonal to the radius
    vector and its moment is [max_wind_speed / eye_radius * r]; from the eye
    wall outwards the moment is [max_wind_speed * eye_radius / r] and the
    radial part is [-(max_wind_speed / 100) * (r - eye_radius)]. *)
Theorem flow_turns_and_drifts (x y : R) :
  0.1 <= radius self x y ->
  let dx := x - center_x self in
  let dy := y - center_y self in
  let r := radius self x y in
  exists vx vy : R,
    velocity_field self x y = Ok (vx, vy)
    /\ (r < eye_radius self ->
        dx * vx + dy * vy = 0
        /\ dx * vy - dy * vx = max_wind_speed self / eye_radius self * r)
    /\ (eye_radius self <= r ->
        dx * vx + dy * vy = - (max_wind_speed self / 100) * (r - eye_radius self)
        /\ dx * vy - dy * vx = max_wind_speed self * eye_radius self / r).
Proof.
  intros Hr dx dy r.
  assert (Hpos : 0 < r) by (unfold r; lra).
  exists (fst (velocity self x y)), (snd (velocity self x y)).
  rewrite <- surjective_pairing. split; [apply velocity_field_R |].
  unfold velocity. fold r dx dy.
  destruct (Rlt_dec r (1 / 10)) as [L | _]; [unfold r in L; lra |].
  pose proof (cartesian_parts dx dy r (omega_R self r) Hpos
                (radius_sqr x y)) as (Hcross & Hdot & _).
  cbv zeta in Hcross, Hdot. rewrite Hcross, Hdot. unfold omega_R.
  split; intros He.
  - destruct (Rlt_dec r (eye_radius self)) as [_ | N]; [| lra].
    rewrite Rmax_right by lra.
    split; [field; lra | reflexivity].
  - destruct (Rlt_dec r (eye_radius self)) as [L | _]; [lra |].
    rewrite Rmax_left by lra.
    split; field; lra.
Qed.

End VelocityFurther.

Lemma flow_turns_and_drifts_witness :
  exists vx vy : R,
    velocity_field (@main_field R _) 400%R (300 + 50)%R = Ok (vx, vy)
    /\ (0 * vx + 50 * vy = - 6)%R
    /\ (0 * vy - 50 * vx = 48)%R.
Proof.
  assert (Hr : (0.1 <= radius (@main_field R _) 400 (300 + 50))%R)
    by (rewrite main_radius_below; lra).
  destruct (flow_turns_and_drifts main_field 400 (300 + 50) Hr)
    as (vx & vy & Hv & _ & Hout).
  exists vx, vy. split; [exact Hv |].
  rewrite main_radius_below, main_eye_radius, main_max_wind_speed in Hout
    by lra.
  cbn [center_x center_y main_field of_int R_float] in Hout.
  destruct Hout as [Hdot Hcross]; [lra |].
  split; lra.
Defined.

Section VelocityBounds.

Local Open Scope R_scope.

Variable self : @HurricaneFlowField R.

Lemma sqrt_le_abs (a b : R) : a <= b * b -> sqrt a <= Rabs b.
Proof.
  intros Hab. rewrite <- sqrt_Rsqr_abs. apply sqrt_le_1_alt. exact Hab.
Qed.

(** With an eye radius of at least 1 the speed of the field nowhere exceeds
    [|max_wind_speed|]. *)
Lemma field_speed_bound (x y : R) :
  1 <= eye_radius self ->
  exists v : R * R,
    velocity_field self x y = Ok v
    /\ speed v <= Rabs (max_wind_speed self).
Proof.
  intros He. exists (velocity self x y). split; [apply velocity_field_R |].
  unfold velocity.
  destruct (Rlt_dec (radius self x y) (1 / 10)) as [_ | Hr].
  - rewrite speed_zero. apply Rabs_pos.
  - set (r := radius self x y) in *.
    assert (Hpos : 0 < r) by lra.
    pose proof (cartesian_parts self (x - center_x self) (y - center_y self)
                  r (omega_R self r) Hpos (radius_sqr self x y))
      as (_ & _ & Hsq).
    cbv zeta in Hsq. unfold speed. rewrite Hsq. apply sqrt_le_abs.
    set (m := max_wind_speed self) in *. set (e := eye_radius self) in *.
    unfold omega_R. fold m e.
    destruct (Rlt_dec r e) as [Hin | Hout].
    + rewrite Rmax_right by lra.
      replace (e / e) with 1 by (field; lra).
      replace (m / e * (m / e) + 1 / 10 * (1 - 1) * m * (1 / 10)
                                 * (1 / 10 * (1 - 1) * m * (1 / 10)))
        with (m * m * (/ e * / e)) by (field; lra).
      assert (0 < / e <= 1).
      { split; [apply Rinv_0_lt_compat; lra |].
        rewrite <- Rinv_1. apply Rinv_le_contravar; lra. }
      assert (/ e * / e <= 1) by nra.
      assert (0 <= m * m) by nra. nra.
    + rewrite Rmax_left by lra.
      set (t := e / r).
      assert (Ht : 0 < t <= 1).
      { unfold t. split.
        - apply Rdiv_lt_0_compat; lra.
        - apply (Rmult_le_reg_r r); [lra |].
          unfold Rdiv. rewrite Rmult_assoc, Rinv_l by lra. lra. }
      assert (Hir : 0 < / r <= 1).
      { split; [apply Rinv_0_lt_compat; lra |].
        rewrite <- Rinv_1. apply Rinv_le_contravar; lra. }
      replace (m * e / (r * r)) with (m * (t * / r)) by (unfold t; field; lra).
      assert (Htr : 0 <= t * / r <= t) by nra.
      assert (Hsum : (t * / r) * (t * / r)
                     + (1 / 100 * (1 - t)) * (1 / 100 * (1 - t)) <= 1) by nra.
      assert (0 <= m * m) by nra.
      replace (m * (t * / r) * (m * (t * / r))
               + 1 / 10 * (1 - t) * m * (1 / 10)
                 * (1 / 10 * (1 - t) * m * (1 / 10)))
        with (m * m * ((t * / r) * (t * / r)
                       + (1 / 100 * (1 - t)) * (1 / 100 * (1 - t))))
        by (field; lra).
      nra.
Qed.

(** X3. Over the reals, with an eye radius of at least 1 the speed of the
    field nowhere exceeds [|max_wind_speed|]; so, for a positive
    [max_wind_speed], the clipping of [arrow_path] is never active on a
    sample of the field: [min(speed / max_wind_speed, 1.0)] is
    [speed / max_wind_speed], and a drawn arrow has the length
    [|arrow_length * scale| * speed / max_wind_speed]. *)
Theorem speed_at_most_max_wind_speed (x y : R) :
  1 <= eye_radius self ->
  exists v : R * R,
    velocity_field self x y = Ok v
    /\ speed v <= Rabs (max_wind_speed self)
    /\ (0 < max_wind_speed self ->
        py_min (speed v / max_wind_speed self) (lit 1.0)
        = speed v / max_wind_speed self
        /\ forall a b scale al : R,
             0.01 <= speed v ->
             exists g : @ArrowGlyph R,
               arrow_points self a b (fst v) (snd v) scale al = Ok (Some g)
               /\ shaft_length g
                  = Rabs (al * scale) * (speed v / max_wind_speed self)).
Proof.
  intros He. destruct (field_speed_bound x y He) as (v & Hv & Hs).
  exists v. split; [exact Hv |]. split; [exact Hs |].
  intros Hw. rewrite Rabs_pos_eq in Hs by lra.
  assert (Hratio : 0 <= speed v / max_wind_speed self <= 1).
  { split.
    - apply Rmult_le_pos; [apply speed_nonneg |].
      left. now apply Rinv_0_lt_compat.
    - apply (Rmult_le_reg_r (max_wind_speed self)); [exact Hw |].
      unfold Rdiv. rewrite Rmult_assoc, Rinv_l by lra. lra. }
  assert (Hmin : Rmin (speed v / max_wind_speed self) 1
                 = speed v / max_wind_speed self)
    by (apply Rmin_left; lra).
  split; [now rewrite py_min_R, lit_1_0 |].
  intros a b scale al Hsp.
  assert (Hpair : speed (fst v, snd v) = speed v) by now destruct v.
  exists (arrow_R self a b (fst v) (snd v) scale al).
  split; [apply arrow_points_drawn; [rewrite Hpair; exact Hsp | lra] |].
  rewrite shaft_length_arrow_R by (rewrite Hpair; lra).
  rewrite Hpair, Hmin, Rabs_mult.
  f_equal. apply Rabs_pos_eq. lra.
Qed.

(** X7. With a zero eye radius nothing rotates: outside the dead zone the
    velocity points straight at the center and its speed is
    [|max_wind_speed| / 100] everywhere. *)
Theorem zero_eye_pure_inflow (x y : R) :
  eye_radius self = 0 ->
  0.1 <= radius self x y ->
  exists v : R * R,
    velocity_field self x y = Ok v
    /\ v = (- (max_wind_speed self / 100) * (x - center_x self)
              / radius self x y,
            - (max_wind_speed self / 100) * (y - center_y self)
              / radius self x y)
    /\ speed v = Rabs (max_wind_speed self) / 100.
Proof.
  intros He Hr. set (r := radius self x y) in *.
  assert (Hpos : 0 < r) by lra.
  exists (velocity self x y). split; [apply velocity_field_R |].
  unfold velocity. fold r.
  destruct (Rlt_dec r (1 / 10)) as [L | _]; [lra |].
  unfold omega_R. rewrite He.
  destruct (Rlt_dec r 0) as [L | _]; [lra |].
  assert (Hv : cartesian self (x - center_x self) (y - center_y self) r
                 (max_wind_speed self * 0 / (r * r))
               = (- (max_wind_speed self / 100) * (x - center_x self) / r,
                  - (max_wind_speed self / 100) * (y - center_y self) / r)).
  { unfold cartesian. rewrite He, Rmax_left by lra. f_equal; field; lra. }
  split; [exact Hv |].
  rewrite Hv.
  pose proof (cartesian_parts self (x - center_x self) (y - center_y self)
                r (max_wind_speed self * 0 / (r * r)) Hpos
                (radius_sqr self x y)) as (_ & _ & Hsq).
  cbv zeta in Hsq. rewrite Hv in Hsq. unfold speed. rewrite Hsq.
  rewrite He, Rmax_left by lra.
  replace (max_wind_speed self * 0 / (r * r)
           * (max_wind_speed self * 0 / (r * r))
           + 1 / 10 * (1 - 0 / r) * max_wind_speed self * (1 / 10)
             * (1 / 10 * (1 - 0 / r) * max_wind_speed self * (1 / 10)))
    with (Rsqr (max_wind_speed self / 100)) by (unfold Rsqr; field; lra).
  rewrite sqrt_Rsqr_abs. unfold Rdiv. rewrite Rabs_mult.
  f_equal. apply Rabs_pos_eq. lra.
Qed.

End VelocityBounds.

Section VelocityWitnesses.

Local Open Scope R_scope.

Lemma radius_below (self : @HurricaneFlowField R) (d : R) :
  0 <= d -> radius self (center_x self) (center_y self + d) = d.
Proof.
  intros Hd. unfold radius.
  replace ((center_x self - center_x self) * (center_x self - center_x self)
           + (center_y self + d - center_y self)
             * (center_y self + d - center_y self))
    with (d * d) by ring.
  now apply sqrt_square.
Qed.

End VelocityWitnesses.

Lemma speed_at_most_max_wind_speed_witness :
  exists v : R * R,
    velocity_field (@main_field R _) 400%R (300 + 50)%R = Ok v
    /\ (speed v <= 60)%R
    /\ (py_min (speed v / 60) (lit 1.0) = speed v / 60)%R.
Proof.
  assert (He : (1 <= eye_radius (@main_field R _))%R)
    by (rewrite main_eye_radius; lra).
  destruct (speed_at_most_max_wind_speed main_field 400 (300 + 50) He)
    as (v & Hv & Hs & Hclip).
  exists v. split; [exact Hv |].
  rewrite main_max_wind_speed in *.
  rewrite Rabs_pos_eq in Hs by lra.
  split; [exact Hs |]. apply Hclip. lra.
Defined.

Lemma zero_eye_pure_inflow_witness :
  exists v : R * R,
    velocity_field eyeless_field 400%R (300 + 7)%R = Ok v
    /\ speed v = (50 / 100)%R.
Proof.
  assert (Hr : (0.1 <= radius eyeless_field 400 (300 + 7))%R)
    by (pose proof (radius_below eyeless_field 7) as E;
        cbn [center_x center_y eyeless_field] in E; rewrite E; lra).
  destruct (zero_eye_pure_inflow eyeless_field 400 (300 + 7) eq_refl Hr)
    as (v & Hv & _ & Hs).
  exists v. split; [exact Hv |].
  cbn [max_wind_speed eyeless_field] in Hs.
  rewrite Hs, Rabs_pos_eq; lra.
Defined.

Section VelocitySymmetries.

Local Open Scope R_scope.

(** X4. The velocity depends on the point only through its offset from the
    center, and not on the canvas: a field with the same wind speed and eye
    radius whose center is moved by [(a, b)] has at [(x + a, y + b)] the
    velocity the first one has at [(x, y)], whatever the two canvases. *)
Theorem velocity_translation_invariant
    (self self' : @HurricaneFlowField R) (a b x y : R) :
  center_x self' = center_x self + a ->
  center_y self' = center_y self + b ->
  max_wind_speed self' = max_wind_speed self ->
  eye_radius self' = eye_radius self ->
  velocity_field self' (x + a) (y + b) = velocity_field self x y.
Proof.
  intros Hx Hy Hw He. rewrite !velocity_field_R. f_equal.
  unfold velocity, radius, cartesian, omega_R.
  rewrite Hx, Hy, Hw, He.
  replace (x + a - (center_x self + a)) with (x - center_x self) by ring.
  replace (y + b - (center_y self + b)) with (y - center_y self) by ring.
  reflexivity.
Qed.

(** X5. The velocity is linear in the wind speed: multiplying
    [max_wind_speed] by [c] multiplies both components of every velocity
    by [c]. *)
Theorem velocity_linear_in_wind_speed
    (self self' : @HurricaneFlowField R) (c x y : R) :
  center_x self' = center_x self ->
  center_y self' = center_y self ->
  eye_radius self' = eye_radius self ->
  max_wind_speed self' = c * max_wind_speed self ->
  exists vx vy : R,
    velocity_field self x y = Ok (vx, vy)
    /\ velocity_field self' x y = Ok (c * vx, c * vy).
Proof.
  intros Hx Hy He Hw.
  exists (fst (velocity self x y)), (snd (velocity self x y)).
  rewrite <- surjective_pairing, !velocity_field_R. split; [reflexivity |].
  f_equal. unfold velocity, radius. rewrite Hx, Hy.
  set (r := sqrt _).
  destruct (Rlt_dec r (1 / 10)) as [_ | Hr].
  - cbn [fst snd]. f_equal; ring.
  - assert (Hm : Rmax r (eye_radius self) <> 0).
    { pose proof (Rmax_l r (eye_radius self)). lra. }
    unfold cartesian, omega_R. rewrite He, Hw. cbn [fst snd].
    destruct (Rlt_dec r (eye_radius self)); f_equal; field;
      repeat split; (assumption || lra).
Qed.

(** The reflection of a point through the center reverses its velocity. *)
Lemma velocity_point_reflection (self : @HurricaneFlowField R) (x y : R) :
  velocity self (2 * center_x self - x) (2 * center_y self - y)
  = (- fst (velocity self x y), - snd (velocity self x y)).
Proof.
  unfold velocity.
  assert (Hrad : radius self (2 * center_x self - x) (2 * center_y self - y)
                 = radius self x y).
  { unfold radius. f_equal. ring. }
  rewrite Hrad. set (r := radius self x y).
  destruct (Rlt_dec r (1 / 10)) as [_ | Hr].
  - cbn [fst snd]. f_equal; ring.
  - assert (Hm : Rmax r (eye_radius self) <> 0).
    { pose proof (Rmax_l r (eye_radius self)). lra. }
    unfold cartesian. cbn [fst snd].
    f_equal; field; repeat split; (assumption || lra).
Qed.

(** X6. A field built without a center has it at the middle of the canvas,
    and is then point-symmetric on the canvas: the velocity at
    [(width - x, height - y)] is the opposite of the velocity at [(x, y)]. *)
Theorem default_center_point_symmetry
    (width height : Z) (wind eye : option R) :
  exists self : @HurricaneFlowField R,
    init (Some width) (Some height) None None wind eye = Ok self
    /\ center_x self = IZR width / 2
    /\ center_y self = IZR height / 2
    /\ forall x y : R,
         exists vx vy : R,
           velocity_field self x y = Ok (vx, vy)
           /\ velocity_field self (IZR width - x) (IZR height - y)
              = Ok (- vx, - vy).
Proof.
  eexists. split.
  { unfold init. cbn [default of_int R_float].
    rewrite !fdiv_R by lra. cbn [bind]. reflexivity. }
  cbn [center_x center_y]. split; [reflexivity |]. split; [reflexivity |].
  intros x y. set (self := Build_HurricaneFlowField _ _ _ _ _ _).
  exists (fst (velocity self x y)), (snd (velocity self x y)).
  rewrite <- surjective_pairing, !velocity_field_R. split; [reflexivity |].
  f_equal. rewrite <- velocity_point_reflection.
  f_equal; unfold self; cbn [center_x center_y]; field.
Qed.

End VelocitySymmetries.

Lemma velocity_translation_invariant_witness :
  velocity_field shifted_field (425 + 10)%R (325 + 20)%R
  = velocity_field (@main_field R _) 425%R 325%R.
Proof.
  apply velocity_translation_invariant;
    cbn [center_x center_y max_wind_speed eye_radius shifted_field main_field
         of_int R_float]; (reflexivity || lra).
Defined.

Lemma velocity_linear_in_wind_speed_witness :
  exists vx vy : R,
    velocity_field (@main_field R _) 425%R 325%R = Ok (vx, vy)
    /\ velocity_field gale_field 425%R 325%R = Ok ((2 * vx)%R, (2 * vy)%R).
Proof.
  apply velocity_linear_in_wind_speed; try reflexivity.
  cbn [max_wind_speed gale_field main_field]. rewrite lit_60_0. lra.
Defined.

(** * Further properties of the arrows *)

Section ArrowFurther.

Local Open Scope R_scope.

Variable fmt_2f : R -> string.
Variable self : @HurricaneFlowField R.

Lemma path_text_nonempty (g : @ArrowGlyph R) :
  path_text fmt_2f g <> EmptyString.
Proof. unfold path_text. cbn. discriminate. Qed.

(** The three ways [arrow_points] ends. *)
Lemma arrow_points_cases (x y vx vy scale al : R) :
  (speed (vx, vy) < 0.01
   /\ arrow_points self x y vx vy scale al = Ok None)
  \/ (0.01 <= speed (vx, vy) /\ max_wind_speed self <> 0
      /\ arrow_points self x y vx vy scale al
         = Ok (Some (arrow_R self x y vx vy scale al)))
  \/ (0.01 <= speed (vx, vy) /\ max_wind_speed self = 0
      /\ arrow_points self x y vx vy scale al = Raise ZeroDivisionError).
Proof.
  destruct (Rlt_dec (speed (vx, vy)) 0.01) as [Hs | Hs].
  - left. split; [exact Hs | now apply arrow_points_skipped].
  - right. destruct (Req_dec_T (max_wind_speed self) 0) as [Hw | Hw].
    + right. repeat split; [lra | exact Hw |].
      apply arrow_points_zero_wind; [lra | exact Hw].
    + left. repeat split; [lra | exact Hw |].
      apply arrow_points_drawn; [lra | exact Hw].
Qed.

(** X8. [arrow_path] raises exactly when it is given a velocity of speed at
    least 0.01 in a field whose [max_wind_speed] is zero, and what it raises
    is [ZeroDivisionError]. *)
Theorem arrow_path_raises_iff (x y vx vy scale al : R) (e : exn) :
  arrow_path fmt_2f self x y vx vy scale al = Raise e
  <-> e = ZeroDivisionError
      /\ max_wind_speed self = 0 /\ 0.01 <= speed (vx, vy).
Proof.
  unfold arrow_path.
  destruct (arrow_points_cases x y vx vy scale al)
    as [[Hs ->] | [(Hs & Hw & ->) | (Hs & Hw & ->)]]; cbn [bind].
  - split; [discriminate | intros (_ & _ & H); lra].
  - split; [discriminate | intros (_ & H & _); contradiction].
  - split.
    + intros H; injection H as <-. repeat split; assumption.
    + intros (-> & _ & _). reflexivity.
Qed.

(** X9. The text [arrow_path] returns is the empty string exactly when the
    speed is below 0.01: a drawn arrow never has an empty path, which is what
    lets [generate_svg] test the text to skip an arrow. *)
Theorem arrow_path_empty_iff (x y vx vy scale al : R) :
  arrow_path fmt_2f self x y vx vy scale al = Ok EmptyString
  <-> speed (vx, vy) < 0.01.
Proof.
  unfold arrow_path.
  destruct (arrow_points_cases x y vx vy scale al)
    as [[Hs ->] | [(Hs & Hw & ->) | (Hs & Hw & ->)]]; cbn [bind].
  - split; [intros _; exact Hs | reflexivity].
  - split; [| lra].
    intros H; injection H as H. now apply path_text_nonempty in H.
  - split; [discriminate | lra].
Qed.

End ArrowFurther.

Section ArrowGeometry.

Local Open Scope R_scope.

Variable self : @HurricaneFlowField R.

Lemma unit_direction (vx vy : R) :
  0 < speed (vx, vy) ->
  vx / speed (vx, vy) * (vx / speed (vx, vy))
  + vy / speed (vx, vy) * (vy / speed (vx, vy)) = 1.
Proof.
  intros Hs.
  assert (Hsq : speed (vx, vy) * speed (vx, vy) = vx * vx + vy * vy).
  { unfold speed. cbn [fst snd]. apply sqrt_sqrt, sum_sq_nonneg. }
  set (s := speed (vx, vy)) in *.
  replace (vx / s * (vx / s) + vy / s * (vy / s))
    with ((vx * vx + vy * vy) / (s * s)) by (field; lra).
  rewrite <- Hsq. field. lra.
Qed.

(** X10. A drawn arrow lies along the velocity it shows: its shaft is the
    velocity scaled by [length / speed], which is never negative when
    [max_wind_speed] is positive and [arrow_length * scale] is not
    negative, so the tip is downstream of the origin. *)
Theorem arrow_points_downstream (x y vx vy scale al : R) :
  0.01 <= speed (vx, vy) ->
  0 < max_wind_speed self ->
  0 <= al * scale ->
  exists (g : @ArrowGlyph R) (k : R),
    arrow_points self x y vx vy scale al = Ok (Some g)
    /\ origin_x g = x /\ origin_y g = y
    /\ 0 <= k
    /\ tip_x g - origin_x g = k * vx
    /\ tip_y g - origin_y g = k * vy.
Proof.
  intros Hs Hw Hl.
  set (s := speed (vx, vy)) in *.
  set (len := al * scale * Rmin (s / max_wind_speed self) 1).
  exists (arrow_R self x y vx vy scale al), (len / s).
  split; [apply arrow_points_drawn; [exact Hs | lra] |].
  cbn [arrow_R origin_x origin_y tip_x tip_y]. fold s len.
  split; [reflexivity |]. split; [reflexivity |].
  assert (Hlen : 0 <= len).
  { unfold len. apply Rmult_le_pos; [exact Hl |].
    apply Rmin_glb; [| lra].
    apply Rmult_le_pos; [lra |]. left. now apply Rinv_0_lt_compat. }
  split.
  - apply Rmult_le_pos; [exact Hlen |]. left. apply Rinv_0_lt_compat. lra.
  - split; field; lra.
Qed.

(** X11. The head of a drawn arrow is symmetric about its shaft: the middle
    of the two barbs is on the shaft, 70% of the way from the origin to the
    tip; the segment between the barbs is orthogonal to the shaft; and both
    barbs are at the same distance from the tip, its square being 9/80 of
    the square of the shaft. *)
Theorem arrow_head_symmetric (x y vx vy scale al : R) :
  0.01 <= speed (vx, vy) ->
  max_wind_speed self <> 0 ->
  exists g : @ArrowGlyph R,
    arrow_points self x y vx vy scale al = Ok (Some g)
    /\ (left_x g + right_x g) / 2
       = origin_x g + 7 / 10 * (tip_x g - origin_x g)
    /\ (left_y g + right_y g) / 2
       = origin_y g + 7 / 10 * (tip_y g - origin_y g)
    /\ (left_x g - right_x g) * (tip_x g - origin_x g)
       + (left_y g - right_y g) * (tip_y g - origin_y g) = 0
    /\ (left_x g - tip_x g) * (left_x g - tip_x g)
       + (left_y g - tip_y g) * (left_y g - tip_y g)
       = 9 / 80 * (shaft_length g * shaft_length g)
    /\ (right_x g - tip_x g) * (right_x g - tip_x g)
       + (right_y g - tip_y g) * (right_y g - tip_y g)
       = 9 / 80 * (shaft_length g * shaft_length g).
Proof.
  intros Hs Hw.
  exists (arrow_R self x y vx vy scale al).
  split; [now apply arrow_points_drawn |].
  assert (Hpos : 0 < speed (vx, vy)) by lra.
  pose proof (unit_direction vx vy Hpos) as Hu.
  assert (Hshaft : shaft_length (arrow_R self x y vx vy scale al)
                   * shaft_length (arrow_R self x y vx vy scale al)
                   = (al * scale
                      * Rmin (speed (vx, vy) / max_wind_speed self) 1)
                     * (al * scale
                        * Rmin (speed (vx, vy) / max_wind_speed self) 1)).
  { rewrite shaft_length_arrow_R by exact Hpos.
    rewrite <- Rabs_mult. apply Rabs_pos_eq. nra. }
  rewrite Hshaft.
  cbn [arrow_R origin_x origin_y tip_x tip_y left_x left_y right_x right_y].
  set (ux := vx / speed (vx, vy)) in *.
  set (uy := vy / speed (vx, vy)) in *.
  set (len := al * scale * Rmin (speed (vx, vy) / max_wind_speed self) 1).
  clearbody ux uy len.
  split; [field |]. split; [field |]. split; [ring |].
  split.
  - replace ((x + ux * len - ux * (len * (3 / 10))
              + - uy * (len * (15 / 100)) - (x + ux * len))
             * (x + ux * len - ux * (len * (3 / 10))
                + - uy * (len * (15 / 100)) - (x + ux * len))
             + (y + uy * len - uy * (len * (3 / 10))
                + ux * (len * (15 / 100)) - (y + uy * len))
               * (y + uy * len - uy * (len * (3 / 10))
                  + ux * (len * (15 / 100)) - (y + uy * len)))
      with (9 / 80 * (len * len) * (ux * ux + uy * uy)) by field.
    rewrite Hu. ring.
  - replace ((x + ux * len - ux * (len * (3 / 10))
              - - uy * (len * (15 / 100)) - (x + ux * len))
             * (x + ux * len - ux * (len * (3 / 10))
                - - uy * (len * (15 / 100)) - (x + ux * len))
             + (y + uy * len - uy * (len * (3 / 10))
                - ux * (len * (15 / 100)) - (y + uy * len))
               * (y + uy * len - uy * (len * (3 / 10))
                  - ux * (len * (15 / 100)) - (y + uy * len)))
      with (9 / 80 * (len * len) * (ux * ux + uy * uy)) by field.
    rewrite Hu. ring.
Qed.

End ArrowGeometry.

Section ArrowWitnesses.

Local Open Scope R_scope.

Lemma speed_main_wall : speed (- (3 / 2), 0) = 3 / 2.
Proof. rewrite speed_horizontal, Rabs_Ropp, Rabs_pos_eq; lra. Qed.

End ArrowWitnesses.

Lemma arrow_points_downstream_witness :
  exists (g : @ArrowGlyph R) (k : R),
    arrow_points (@main_field R _) 400%R 340%R (- (3 / 2))%R 0%R 1.2%R 20%R
    = Ok (Some g)
    /\ (0 <= k)%R
    /\ (tip_x g - origin_x g = k * - (3 / 2))%R
    /\ (tip_y g - origin_y g = k * 0)%R.
Proof.
  assert (Hs : (0.01 <= speed (- (3 / 2), 0))%R)
    by (rewrite speed_main_wall; lra).
  assert (Hw : (0 < max_wind_speed (@main_field R _))%R)
    by (rewrite main_max_wind_speed; lra).
  assert (Hl : (0 <= 20 * 1.2)%R) by lra.
  destruct (arrow_points_downstream main_field 400 340 (- (3 / 2)) 0 1.2 20
              Hs Hw Hl) as (g & k & Hg & _ & _ & Hk & Hx & Hy).
  exists g, k. repeat split; assumption.
Defined.

Lemma arrow_head_symmetric_witness :
  exists g : @ArrowGlyph R,
    arrow_points (@main_field R _) 400%R 340%R (- (3 / 2))%R 0%R 1.2%R 20%R
    = Ok (Some g)
    /\ ((left_x g + right_x g) / 2
        = origin_x g + 7 / 10 * (tip_x g - origin_x g))%R
    /\ ((left_x g - right_x g) * (tip_x g - origin_x g)
        + (left_y g - right_y g) * (tip_y g - origin_y g) = 0)%R.
Proof.
  assert (Hs : (0.01 <= speed (- (3 / 2), 0))%R)
    by (rewrite speed_main_wall; lra).
  assert (Hw : max_wind_speed (@main_field R _) <> 0%R)
    by (rewrite main_max_wind_speed; lra).
  destruct (arrow_head_symmetric main_field 400 340 (- (3 / 2)) 0 1.2 20
              Hs Hw) as (g & Hg & Hmx & _ & Hperp & _).
  exists g. repeat split; assumption.
Defined.

(** * Further properties of the grid *)

Section GridFurther.

Context {F : Type} `{PyFloat F}.
Variable self : @HurricaneFlowField F.

Local Open Scope Z_scope.

(** X12. [generate_grid] raises exactly for a zero [spacing], and then it
    raises the [ValueError] of [range]; the size of the canvas plays no
    part. *)
Theorem generate_grid_raises_iff (spacing : Z) (e : exn) :
  generate_grid self spacing = Raise e <-> spacing = 0 /\ e = ValueError.
Proof.
  destruct (Z.eq_dec spacing 0) as [-> | Hs].
  - rewrite generate_grid_zero. split.
    + intros H0; injection H0 as <-. split; reflexivity.
    + intros [_ ->]. reflexivity.
  - rewrite generate_grid_ok by assumption.
    split; [discriminate | intros [H0 _]; contradiction].
Qed.

Lemma range_items_count (spacing stop : Z) :
  0 < spacing ->
  List.length (range_items spacing stop spacing)
  = Z.to_nat ((stop - 1) / spacing).
Proof.
  intros Hs. rewrite range_items_length, range_length_pos_step by assumption.
  destruct (Z.ltb_spec spacing stop) as [Hlt | Hge].
  - assert (E : (stop - 1) / spacing = (stop - 1 - spacing) / spacing + 1).
    { rewrite <- Z.div_add by lia. f_equal. ring. }
    rewrite E. f_equal. ring.
  - assert ((stop - 1) / spacing <= 0); [| lia].
    destruct (Z.le_gt_cases 0 (stop - 1)) as [Hnn | Hneg].
    + rewrite Z.div_small by lia. lia.
    + assert ((stop - 1) / spacing < 0) by (apply Z.div_lt_upper_bound; lia).
      lia.
Qed.

(** X13. For a positive [spacing] the grid has
    [floor((width - 1) / spacing) * floor((height - 1) / spacing)] points,
    each factor counted as zero when it is negative. *)
Theorem generate_grid_count (spacing : Z) :
  0 < spacing ->
  exists grid : list (Z * Z),
    generate_grid self spacing = Ok grid
    /\ List.length grid
       = (Z.to_nat ((width self - 1) / spacing)
          * Z.to_nat ((height self - 1) / spacing))%nat.
Proof.
  intros Hs. eexists. split; [apply generate_grid_ok; lia |].
  now rewrite flat_map_pairs_length, !range_items_count.
Qed.

(** X14. A negative [spacing] raises nothing: the grid is then empty as
    soon as the width or the height is not below [spacing], so on every
    canvas of non-negative size. *)
Theorem generate_grid_negative_spacing (spacing : Z) :
  spacing < 0 ->
  spacing <= width self \/ spacing <= height self ->
  generate_grid self spacing = Ok [].
Proof.
  intros Hs Hdim. rewrite generate_grid_ok by lia. f_equal.
  assert (Hnil : forall stop, spacing <= stop ->
                              range_items spacing stop spacing = []).
  { intros stop Hle. unfold range_items, range_length.
    destruct (Z.ltb_spec 0 spacing); [lia |].
    destruct (Z.ltb_spec stop spacing); [lia | reflexivity]. }
  destruct Hdim as [Hw | Hh].
  - now rewrite (Hnil (width self) Hw).
  - rewrite (Hnil (height self) Hh).
    induction (range_items spacing (width self) spacing) as [| a l IH];
      [reflexivity | exact IH].
Qed.

End GridFurther.

Lemma generate_grid_count_witness :
  exists grid : list (Z * Z),
    generate_grid (@main_field float _) 30 = Ok grid
    /\ List.length grid = (26 * 19)%nat.
Proof.
  destruct (generate_grid_count (@main_field float _) 30)
    as (grid & Hg & Hn); [reflexivity |].
  exists grid. split; [exact Hg | exact Hn].
Defined.

Lemma generate_grid_negative_spacing_witness :
  generate_grid (@main_field float _) (-25) = Ok [].
Proof.
  apply generate_grid_negative_spacing; [reflexivity |].
  left. cbn [width main_field]. lia.
Defined.

(** * Further properties of the document *)

Section GridDistinct.

Local Open Scope Z_scope.

Lemma sorted_NoDup (l : list Z) : StronglySorted Z.lt l -> NoDup l.
Proof.
  induction 1 as [| a l _ IH Hall]; constructor; [| exact IH].
  intros Hin. rewrite Forall_forall in Hall. specialize (Hall a Hin). lia.
Qed.

Lemma map_pair_NoDup (x : Z) (ys : list Z) :
  NoDup ys -> NoDup (map (fun y => (x, y)) ys).
Proof.
  induction 1 as [| y ys Hy _ IH]; cbn [map]; constructor; [| exact IH].
  intros Hin. apply in_map_iff in Hin. destruct Hin as (y' & E & Hy').
  injection E as ->. contradiction.
Qed.

Lemma pairs_NoDup (xs ys : list Z) :
  NoDup xs -> NoDup ys ->
  NoDup (flat_map (fun x => map (fun y => (x, y)) ys) xs).
Proof.
  intros Hxs Hys. induction Hxs as [| x xs Hx _ IH]; cbn [flat_map].
  - constructor.
  - apply NoDup_app; [| exact IH |].
    + now apply map_pair_NoDup.
    + intros [a b] Hab Hrest.
      apply in_map_iff in Hab. destruct Hab as (y & E & _).
      injection E as <- <-.
      apply in_flat_map in Hrest. destruct Hrest as (x' & Hx' & Hp).
      apply in_map_iff in Hp. destruct Hp as (y' & E' & _).
      injection E' as -> _. contradiction.
Qed.

Lemma pairs_In (xs ys : list Z) (x y : Z) :
  In (x, y) (flat_map (fun x => map (fun y => (x, y)) ys) xs)
  <-> In x xs /\ In y ys.
Proof.
  rewrite in_flat_map. split.
  - intros (x' & Hx' & Hp). apply in_map_iff in Hp.
    destruct Hp as (y' & E & Hy'). injection E as -> ->. now split.
  - intros [Hx Hy]. exists x. split; [exact Hx |].
    apply in_map_iff. now exists y.
Qed.

End GridDistinct.

Section DocumentFurther.

Local Open Scope R_scope.

Variable self : @HurricaneFlowField R.

Lemma glyph_origins_NoDup (scale : R) (pts : list (Z * Z)) :
  NoDup pts ->
  NoDup (map (fun g => (origin_x g, origin_y g))
           (flat_map (glyph_of self scale) pts)).
Proof.
  induction 1 as [| p pts Hp _ IH]; cbn [flat_map map]; [constructor |].
  rewrite map_app. apply NoDup_app; [| exact IH |].
  - unfold glyph_of. destruct (Rlt_dec _ _); cbn [map];
      [constructor | constructor; [intros [] | constructor]].
  - intros o Hhere Hrest.
    apply in_map_iff in Hhere. destruct Hhere as (g & <- & Hg).
    apply glyph_of_origin in Hg. destruct Hg as (Hx & Hy & _).
    apply in_map_iff in Hrest. destruct Hrest as (g' & E & Hg').
    apply in_flat_map in Hg'. destruct Hg' as (p' & Hp' & Hg').
    apply glyph_of_origin in Hg'. destruct Hg' as (Hx' & Hy' & _).
    injection E as Ex Ey.
    rewrite Hx, Hx' in Ex. rewrite Hy, Hy' in Ey.
    apply eq_IZR in Ex, Ey.
    destruct p as [a b], p' as [a' b']. cbn [fst snd] in Ex, Ey.
    subst a' b'. contradiction.
Qed.

(** X15. For a positive [spacing] every arrow of the document starts at a
    grid point strictly inside the canvas, and no two arrows start at the
    same point. *)
Theorem arrows_start_at_distinct_grid_points (spacing : Z) (scale : R) :
  (0 < spacing)%Z ->
  exists (grid : list (Z * Z)) (gs : list (@ArrowGlyph R)),
    generate_grid self spacing = Ok grid
    /\ arrow_glyphs self scale grid = Ok gs
    /\ NoDup (map (fun g => (origin_x g, origin_y g)) gs)
    /\ forall g : @ArrowGlyph R,
         In g gs ->
         exists x y : Z,
           In (x, y) grid
           /\ origin_x g = IZR x /\ origin_y g = IZR y
           /\ (0 < x < width self)%Z /\ (0 < y < height self)%Z.
Proof.
  intros Hs.
  set (xs := range_items spacing (width self) spacing).
  set (ys := range_items spacing (height self) spacing).
  exists (flat_map (fun x => map (fun y => (x, y)) ys) xs),
         (flat_map (glyph_of self scale)
            (flat_map (fun x => map (fun y => (x, y)) ys) xs)).
  split; [apply generate_grid_ok; lia |].
  split; [apply arrow_glyphs_R |].
  split.
  - apply (glyph_origins_NoDup scale).
    apply pairs_NoDup; apply sorted_NoDup, range_items_sorted; exact Hs.
  - intros g Hg. apply in_flat_map in Hg. destruct Hg as ([x y] & Hp & Hg).
    apply glyph_of_origin in Hg. cbn [fst snd] in Hg.
    destruct Hg as (Hx & Hy & _).
    exists x, y. split; [exact Hp |]. split; [exact Hx |].
    split; [exact Hy |].
    apply pairs_In in Hp. destruct Hp as [Hinx Hiny].
    apply range_items_In in Hinx, Hiny; try exact Hs. lia.
Qed.

Lemma glyph_of_shaft (scale : R) (p : Z * Z) (g : @ArrowGlyph R) :
  0 < max_wind_speed self -> 0 <= scale ->
  In g (glyph_of self scale p) -> shaft_length g <= 20 * scale.
Proof.
  intros Hw Hsc. unfold glyph_of.
  destruct (Rlt_dec _ _) as [Hs | Hs]; [intros [] |].
  intros [<- | []].
  set (v := velocity self (IZR (fst p)) (IZR (snd p))) in *.
  assert (Hsp : speed (fst v, snd v) = speed v) by now destruct v.
  rewrite shaft_length_arrow_R by (rewrite Hsp; lra).
  rewrite Hsp.
  assert (Hm : 0 <= Rmin (speed v / max_wind_speed self) 1 <= 1).
  { split; [| apply Rmin_r]. apply Rmin_glb; [| lra].
    apply Rmult_le_pos; [lra |]. left. now apply Rinv_0_lt_compat. }
  rewrite Rabs_pos_eq by (apply Rmult_le_pos; [lra | apply Hm]).
  nra.
Qed.

(** X17. Over the reals, with a positive [max_wind_speed] and a
    non-negative [arrow_scale], no arrow of the document is longer than
    [20 * arrow_scale], the default [arrow_length] times the scale. *)
Theorem document_arrows_bounded (spacing : Z) (scale : R) :
  spacing <> 0%Z ->
  0 < max_wind_speed self ->
  0 <= scale ->
  exists (grid : list (Z * Z)) (gs : list (@ArrowGlyph R)),
    generate_grid self spacing = Ok grid
    /\ arrow_glyphs self scale grid = Ok gs
    /\ Forall (fun g => shaft_length g <= 20 * scale) gs.
Proof.
  intros Hs Hw Hsc. eexists. eexists.
  split; [now apply generate_grid_ok |].
  split; [apply arrow_glyphs_R |].
  apply Forall_forall. intros g Hg.
  apply in_flat_map in Hg. destruct Hg as (p & _ & Hg).
  now apply (glyph_of_shaft scale p).
Qed.

(** X16. A grid point in the dead zone, closer than 0.1 to the center, gets
    no arrow: nothing in the document starts there. *)
Theorem dead_zone_point_has_no_arrow (spacing x y : Z) (scale : R) :
  spacing <> 0%Z ->
  radius self (IZR x) (IZR y) < 0.1 ->
  exists (grid : list (Z * Z)) (gs : list (@ArrowGlyph R)),
    generate_grid self spacing = Ok grid
    /\ arrow_glyphs self scale grid = Ok gs
    /\ forall g : @ArrowGlyph R,
         In g gs -> ~ (origin_x g = IZR x /\ origin_y g = IZR y).
Proof.
  intros Hs Hr. eexists. eexists.
  split; [now apply generate_grid_ok |].
  split; [apply arrow_glyphs_R |].
  intros g Hg [Hx Hy].
  apply in_flat_map in Hg. destruct Hg as ([x' y'] & _ & Hg).
  apply glyph_of_origin in Hg. cbn [fst snd] in Hg.
  destruct Hg as (Hx' & Hy' & Hsp).
  rewrite Hx in Hx'. rewrite Hy in Hy'. apply eq_IZR in Hx', Hy'.
  subst x' y'. unfold velocity in Hsp.
  destruct (Rlt_dec (radius self (IZR x) (IZR y)) (1 / 10)) as [_ | N];
    [| lra].
  rewrite speed_zero in Hsp. lra.
Qed.

End DocumentFurther.

Lemma arrows_start_at_distinct_grid_points_witness :
  exists gs : list (@ArrowGlyph R),
    arrow_glyphs (@main_field R _) 1.2%R
      (flat_map (fun x => map (fun y => (x, y)) (range_items 25 600 25))
                (range_items 25 800 25))
    = Ok gs
    /\ NoDup (map (fun g => (origin_x g, origin_y g)) gs).
Proof.
  destruct (arrows_start_at_distinct_grid_points (@main_field R _) 25 1.2%R)
    as (grid & gs & Hg & Ha & Hnd & _); [reflexivity |].
  rewrite generate_grid_ok in Hg by discriminate. injection Hg as <-.
  exists gs. split; [exact Ha | exact Hnd].
Defined.

Lemma document_arrows_bounded_witness :
  exists gs : list (@ArrowGlyph R),
    arrow_glyphs (@main_field R _) 1.2%R
      (flat_map (fun x => map (fun y => (x, y)) (range_items 25 600 25))
                (range_items 25 800 25))
    = Ok gs
    /\ Forall (fun g => (shaft_length g <= 20 * 1.2)%R) gs.
Proof.
  assert (Hs : 25%Z <> 0%Z) by discriminate.
  assert (Hw : (0 < max_wind_speed (@main_field R _))%R)
    by (rewrite main_max_wind_speed; lra).
  assert (Hsc : (0 <= 1.2)%R) by lra.
  destruct (document_arrows_bounded (@main_field R _) 25 1.2%R Hs Hw Hsc)
    as (grid & gs & Hg & Ha & Hall).
  rewrite generate_grid_ok in Hg by discriminate. injection Hg as <-.
  exists gs. split; [exact Ha | exact Hall].
Defined.

Lemma dead_zone_point_has_no_arrow_witness :
  exists gs : list (@ArrowGlyph R),
    arrow_glyphs (@main_field R _) 1.2%R
      (flat_map (fun x => map (fun y => (x, y)) (range_items 25 600 25))
                (range_items 25 800 25))
    = Ok gs
    /\ forall g : @ArrowGlyph R,
         In g gs -> ~ (origin_x g = 400%R /\ origin_y g = 300%R).
Proof.
  assert (Hs : 25%Z <> 0%Z) by discriminate.
  assert (Hr : (radius (@main_field R _) (IZR 400) (IZR 300) < 0.1)%R).
  { replace (IZR 300) with (300 + 0)%R by lra.
    rewrite main_radius_below; lra. }
  destruct (dead_zone_point_has_no_arrow (@main_field R _) 25 400 300 1.2%R
              Hs Hr) as (grid & gs & Hg & Ha & Hno).
  rewrite generate_grid_ok in Hg by discriminate. injection Hg as <-.
  exists gs. split; [exact Ha | exact Hno].
Defined.

(** * [main] *)

Section MainIdeal.

Variable fmt_2f : R -> string.
Variable fmt_str : R -> string.

(** X21. Run over the reals where its output file can be written, [main]
    raises nothing: it leaves in [hurricane_flow_field.svg] the document of
    the 800 by 600 field at spacing 25, touches no other file, and prints
    the confirmation and the six lines of the summary. *)
Theorem main_writes_and_reports (w : World) :
  writable w "hurricane_flow_field.svg"%string = true ->
  exists (doc : string) (w' : World),
    generate_svg fmt_2f fmt_str (@main_field R _) 25 (lit 1.2) (lit 1.5)
      "#0066cc" = Ok doc
    /\ main fmt_2f fmt_str w = Done w'
    /\ files w' "hurricane_flow_field.svg"%string = Some doc
    /\ (forall p : string,
          p <> "hurricane_flow_field.svg"%string -> files w' p = files w p)
    /\ stdout w'
       = stdout w
         ++ ["Flow field saved to hurricane_flow_field.svg";
             nl ++ "Hurricane flow field visualization complete!";
             "Parameters:";
             "  Canvas size: 800x600";
             "  Eye center: (400, 300)";
             "  Eye radius: " ++ fmt_str 40%R;
             "  Max wind speed: " ++ fmt_str 60%R]%string.
Proof.
  intros Hw.
  destruct (generate_svg_R fmt_2f fmt_str (@main_field R _) 25 (lit 1.2)
              (lit 1.5) "#0066cc") as (grid & _ & _ & Hdoc);
    [discriminate |].
  eexists. eexists. split; [exact Hdoc |].
  unfold main, init. cbn [default bind].
  change (Build_HurricaneFlowField 800 600 (of_int 400) (of_int 300)
            (lit 60.0) (lit 40.0)) with (@main_field R _).
  unfold save_svg, generate_svg_kw, write_file. cbn [default kw_spacing
    kw_arrow_scale kw_stroke_width kw_stroke_color].
  rewrite Hdoc, Hw.
  split; [reflexivity |].
  cbn [print files writable stdout].
  split; [now rewrite String.eqb_refl |].
  split.
  - intros p Hp. apply String.eqb_neq in Hp. now rewrite Hp.
  - rewrite main_eye_radius, main_max_wind_speed.
    rewrite <- !app_assoc. reflexivity.
Qed.

End MainIdeal.

Lemma main_writes_and_reports_witness :
  exists w' : World,
    main (@blank R) (@blank R) fresh_world = Done w'
    /\ List.length (stdout w') = 7%nat.
Proof.
  destruct (main_writes_and_reports blank blank fresh_world eq_refl)
    as (doc & w' & _ & Hmain & _ & _ & Hout).
  exists w'. split; [exact Hmain |]. rewrite Hout. reflexivity.
Defined.

(** * The text of the document *)

Section DocumentText.

Context {F : Type} `{PyFloat F}.
Variable fmt_2f : F -> string.
Variable fmt_str : F -> string.

Local Open Scope string_scope.

Lemma concat_cons (sep x : string) (l : list string) :
  l <> [] -> String.concat sep (x :: l) = x ++ sep ++ String.concat sep l.
Proof. destruct l; [contradiction | reflexivity]. Qed.

(** The lines of the arrows followed by the closing lines are the elements
    followed by the footer. *)
Lemma concat_arrow_lines (f : @ArrowGlyph F -> string)
    (gs : list (@ArrowGlyph F)) :
  (forall g, f g ++ nl = path_element (path_text fmt_2f g)) ->
  String.concat nl (map f gs ++ ["  </g>"; "</svg>"])%list
  = elements fmt_2f gs ++ svg_footer.
Proof.
  intros Hf. induction gs as [| g gs IH]; [reflexivity |].
  cbn [map app elements fold_right].
  rewrite concat_cons by (destruct gs; discriminate).
  rewrite IH, <- Hf. now rewrite !string_app_assoc.
Qed.

(** The written-out text is the header, the elements and the footer that
    [generate_svg] assembles. *)
Lemma svg_document_eq (self : @HurricaneFlowField F) (sw : F) (sc : string)
    (gs : list (@ArrowGlyph F)) :
  svg_document fmt_2f fmt_str self sw sc gs
  = svg_header fmt_2f fmt_str self sw sc ++ elements fmt_2f gs ++ svg_footer.
Proof.
  unfold svg_document. cbv zeta.
  rewrite <- concat_arrow_lines
    with (f := fun g =>
                 "    <path d="
                 ++ quoted ("M " ++ fmt_2f (origin_x g) ++ ","
                            ++ fmt_2f (origin_y g)
                            ++ " L " ++ fmt_2f (tip_x g) ++ ","
                            ++ fmt_2f (tip_y g)
                            ++ " M " ++ fmt_2f (left_x g) ++ ","
                            ++ fmt_2f (left_y g)
                            ++ " L " ++ fmt_2f (tip_x g) ++ ","
                            ++ fmt_2f (tip_y g)
                            ++ " L " ++ fmt_2f (right_x g) ++ ","
                            ++ fmt_2f (right_y g))
                 ++ " class=" ++ quoted "flow-arrow" ++ "/>").
  - set (rest := (map _ gs ++ _)%list).
    assert (Hrest : rest <> []) by (unfold rest; destruct gs; discriminate).
    cbn [app]. 
    repeat (rewrite concat_cons by discriminate).
    rewrite concat_cons by exact Hrest.
    unfold svg_header, quoted.
    repeat rewrite string_app_assoc. reflexivity.
  - intros g. unfold path_element, path_text, quoted.
    repeat rewrite string_app_assoc. reflexivity.
Qed.

Lemma generate_svg_text (self : @HurricaneFlowField F) (spacing : Z)
    (scale sw : F) (sc : string) :
  generate_svg fmt_2f fmt_str self spacing scale sw sc
  = (grid <- generate_grid self spacing ;;
     gs <- arrow_glyphs self scale grid ;;
     Ok (svg_document fmt_2f fmt_str self sw sc gs)).
Proof.
  unfold generate_svg.
  destruct (generate_grid self spacing) as [grid | e]; [| reflexivity].
  unfold bind at 1 3. rewrite svg_arrows_glyphs.
  destruct (arrow_glyphs self scale grid) as [gs | e]; [| reflexivity].
  unfold bind. now rewrite svg_document_eq, string_app_assoc.
Qed.

End DocumentText.

(** * Counting the path elements of a document *)

Section CountPaths.

Local Open Scope string_scope.

Lemma lt_free_app (a b : string) :
  lt_free (a ++ b) = lt_free a && lt_free b.
Proof.
  induction a as [| c a IH]; cbn [append lt_free]; [reflexivity |].
  now rewrite IH, andb_assoc.
Qed.

Lemma prefix_app (p a b : string) :
  (String.length p <= String.length a)%nat ->
  String.prefix p (a ++ b) = String.prefix p a.
Proof.
  revert a. induction p as [| c p IH]; intros a Hlen;
    [destruct a; cbn [append]; [destruct b |]; reflexivity |].
  destruct a as [| d a]; cbn [String.length] in Hlen; [lia |].
  cbn [append String.prefix].
  destruct (ascii_dec c d); [apply IH; lia | reflexivity].
Qed.

Lemma prefix_path_other (c : ascii) (s : string) :
  Ascii.eqb c "<" = false -> String.prefix "<path " (String c s) = false.
Proof.
  intros Hc. cbn [String.prefix].
  destruct (ascii_dec "<" c) as [<- | _]; [discriminate | reflexivity].
Qed.

(** A text without [<] holds no path element and starts none. *)
Lemma count_paths_lt_free (a b : string) :
  lt_free a = true -> count_paths (a ++ b) = count_paths b.
Proof.
  induction a as [| c a IH]; cbn [append lt_free]; [reflexivity |].
  intros Hab. apply andb_prop in Hab. destruct Hab as [Hc Ha].
  apply negb_true_iff in Hc.
  cbn [count_paths]. rewrite prefix_path_other by exact Hc.
  now rewrite IH.
Qed.

Lemma count_paths_app (a b : string) :
  closed_text a = true ->
  count_paths (a ++ b) = (count_paths a + count_paths b)%nat.
Proof.
  induction a as [| c a IH]; cbn [append closed_text]; [reflexivity |].
  intros Hab. apply andb_prop in Hab. destruct Hab as [Hc Ha].
  cbn [count_paths]. rewrite IH by exact Ha.
  assert (Hp : String.prefix "<path " (String c (a ++ b))
               = String.prefix "<path " (String c a)).
  { apply orb_prop in Hc. destruct Hc as [Hc | Hc].
    - apply negb_true_iff in Hc. now rewrite !prefix_path_other.
    - apply Nat.leb_le in Hc.
      apply (prefix_app "<path " (String c a) b). cbn [String.length]. lia. }
  rewrite Hp. lia.
Qed.

Lemma lt_free_digits (d : Decimal.uint) :
  lt_free (DecimalString.NilEmpty.string_of_uint d) = true.
Proof.
  induction d; cbn [DecimalString.NilEmpty.string_of_uint lt_free];
    [reflexivity | assumption ..].
Qed.

Lemma lt_free_string_of_uint (d : Decimal.uint) :
  lt_free (DecimalString.NilZero.string_of_uint d) = true.
Proof.
  unfold DecimalString.NilZero.string_of_uint.
  destruct d; try reflexivity; apply lt_free_digits.
Qed.

Lemma lt_free_str_int (z : Z) : lt_free (str_int z) = true.
Proof.
  unfold str_int, DecimalString.NilZero.string_of_int.
  destruct (Z.to_int z); [apply lt_free_string_of_uint |].
  cbn [lt_free]. apply lt_free_string_of_uint.
Qed.

End CountPaths.

Section CountDocument.

Context {F : Type} `{PyFloat F}.
Variable fmt_2f : F -> string.
Variable fmt_str : F -> string.

(** The formatter of the coordinates prints no [<]. *)
Hypothesis fmt_2f_lt_free : forall v : F, lt_free (fmt_2f v) = true.

Local Open Scope string_scope.

Lemma lt_free_path_text (g : @ArrowGlyph F) :
  lt_free (path_text fmt_2f g) = true.
Proof.
  unfold path_text. now rewrite !lt_free_app, !fmt_2f_lt_free.
Qed.

Ltac count_piece :=
  first [ rewrite count_paths_lt_free
            by first [ reflexivity | assumption | apply fmt_2f_lt_free
                     | apply lt_free_str_int | apply lt_free_path_text ]
        | rewrite count_paths_app by reflexivity ].

Lemma count_paths_element (g : @ArrowGlyph F) (rest : string) :
  count_paths (path_element (path_text fmt_2f g) ++ rest)
  = S (count_paths rest).
Proof.
  unfold path_element. repeat rewrite string_app_assoc.
  repeat count_piece. reflexivity.
Qed.

Lemma count_paths_elements (gs : list (@ArrowGlyph F)) (rest : string) :
  count_paths (elements fmt_2f gs ++ rest)
  = (List.length gs + count_paths rest)%nat.
Proof.
  induction gs as [| g gs IH]; [reflexivity |].
  change (elements fmt_2f (g :: gs))
    with (path_element (path_text fmt_2f g) ++ elements fmt_2f gs).
  cbn [List.length].
  now rewrite string_app_assoc, count_paths_element, IH.
Qed.

(** A document has as many path elements as arrows, when neither the
    formatters nor the stroke color print a [<]. *)
Lemma count_paths_document (self : @HurricaneFlowField F) (sw : F)
    (sc : string) (gs : list (@ArrowGlyph F)) :
  lt_free (fmt_str sw) = true ->
  lt_free sc = true ->
  count_paths (svg_document fmt_2f fmt_str self sw sc gs) = List.length gs.
Proof.
  intros Hsw Hsc. rewrite svg_document_eq. unfold svg_header.
  repeat rewrite string_app_assoc.
  repeat count_piece.
  rewrite count_paths_elements.
  change (count_paths svg_footer) with 0%nat. cbn. lia.
Qed.

End CountDocument.

(** * The claims about the document *)

Section DocumentGeneric.

Context {F : Type} `{PyFloat F}.
Variable fmt_2f : F -> string.
Variable fmt_str : F -> string.

Local Open Scope pyfloat_scope.

(** What [arrow_path] decides on, when it returns: the test of line 115 on
    the speed of line 114 alone. *)
Lemma arrow_points_inv (self : @HurricaneFlowField F)
    (x y vx vy scale al : F) (og : option (@ArrowGlyph F)) :
  arrow_points self x y vx vy scale al = Ok og ->
  exists speed : F,
    fsqrt (vx * vx + vy * vy) = Ok speed
    /\ (og = None <-> (speed <? lit 0.01) = true)
    /\ (forall g, og = Some g -> origin_x g = x /\ origin_y g = y).
Proof.
  unfold arrow_points. intros E.
  apply bind_returns in E. destruct E as (speed & Hspeed & E).
  exists speed. split; [exact Hspeed |].
  destruct (speed <? lit 0.01) eqn:Hlt.
  - injection E as <-. split; [easy | discriminate].
  - apply bind_returns in E. destruct E as (ratio & _ & E).
    apply bind_returns in E. destruct E as (vx_norm & _ & E).
    apply bind_returns in E. destruct E as (vy_norm & _ & E).
    injection E as <-. split; [split; discriminate |].
    intros g Hg. injection Hg as <-. split; reflexivity.
Qed.

Lemma arrow_glyphs_inv (self : @HurricaneFlowField F) (scale : F)
    (pts : list (Z * Z)) :
  forall gs : list (@ArrowGlyph F),
    arrow_glyphs self scale pts = Ok gs ->
    exists per : list (option (@ArrowGlyph F)),
      Forall2 (sampled self) pts per /\ gs = drawn per.
Proof.
  induction pts as [| [x y] rest IH]; intros gs E; cbn [arrow_glyphs] in E.
  - injection E as <-. exists []. split; [constructor | reflexivity].
  - apply bind_returns in E. destruct E as ([vx vy] & Hv & E).
    apply bind_returns in E. destruct E as (og & Hog & E).
    apply bind_returns in E. destruct E as (gs' & Hgs' & E).
    destruct (IH gs' Hgs') as (per & Hper & ->).
    cbn [fst snd] in Hog.
    destruct (arrow_points_inv _ _ _ _ _ _ _ _ Hog) as (speed & Hs & Hnone & Ho).
    exists (og :: per). split.
    + constructor; [| exact Hper].
      exists vx, vy, speed. cbn [fst snd].
      split; [exact Hv |]. split; [exact Hs |].
      split; [exact Hnone | exact Ho].
    + injection E as <-. destruct og; reflexivity.
Qed.

Lemma drawn_length {A : Type} (per : list (option A)) :
  (List.length (drawn per) <= List.length per)%nat.
Proof.
  induction per as [| [a |] per IH]; cbn [drawn flat_map app List.length] in *;
    [lia | | ]; fold (drawn per); lia.
Qed.

End DocumentGeneric.

Section DocumentClaims.

Context {F : Type} `{PyFloat F}.
Variable fmt_2f : F -> string.
Variable fmt_str : F -> string.

(** C6, amended. In every arithmetic, a document that [generate_svg]
    returns is the written-out text with one path element per glyph, in the
    order of the grid, where each grid point has a glyph, starting at that
    point, exactly when its computed speed is not below 0.01: a point whose
    computed speed is below 0.01 adds nothing to the text. So the document
    has at most as many glyphs as the grid has points, and, formatters and
    stroke color printing no [<], that many [<path ] elements in its
    text. *)
Theorem arrows_iff_speed (self : @HurricaneFlowField F) (spacing : Z)
    (scale sw : F) (sc doc : string) :
  generate_svg fmt_2f fmt_str self spacing scale sw sc = Ok doc ->
  exists (grid : list (Z * Z)) (per : list (option (@ArrowGlyph F))),
    generate_grid self spacing = Ok grid
    /\ Forall2 (sampled self) grid per
    /\ doc = svg_document fmt_2f fmt_str self sw sc (drawn per)
    /\ (List.length (drawn per) <= List.length grid)%nat
    /\ ((forall v : F, lt_free (fmt_2f v) = true) ->
        lt_free (fmt_str sw) = true ->
        lt_free sc = true ->
        count_paths doc = List.length (drawn per)).
Proof.
  intros E. rewrite generate_svg_text in E.
  apply bind_returns in E. destruct E as (grid & Hgrid & E).
  apply bind_returns in E. destruct E as (gs & Hgs & E).
  injection E as <-.
  destruct (arrow_glyphs_inv self scale grid gs Hgs) as (per & Hper & ->).
  exists grid, per.
  split; [exact Hgrid |]. split; [exact Hper |]. split; [reflexivity |].
  split.
  - rewrite (Forall2_length Hper). apply drawn_length.
  - intros Hfmt Hsw Hsc. now apply count_paths_document.
Qed.

End DocumentClaims.

Lemma arrows_iff_speed_witness :
  exists (doc : string) (grid : list (Z * Z))
         (per : list (option (@ArrowGlyph float))),
    generate_svg blank blank small_field 25 (lit 1.2) (lit 1.5) "#0066cc"
    = Ok doc
    /\ generate_grid small_field 25 = Ok grid
    /\ Forall2 (sampled small_field) grid per
    /\ doc = svg_document blank blank small_field (lit 1.5) "#0066cc"
               (drawn per)
    /\ (List.length (drawn per) <= List.length grid)%nat.
Proof.
  assert (E : exists doc,
             generate_svg blank blank small_field 25 (lit 1.2) (lit 1.5)
               "#0066cc" = Ok doc)
    by (vm_compute; eexists; reflexivity).
  destruct E as [doc E].
  destruct (arrows_iff_speed blank blank small_field 25 (lit 1.2) (lit 1.5)
              "#0066cc" doc E) as (grid & per & Hg & Hper & Hdoc & Hlen & _).
  exists doc, grid, per. repeat split; assumption.
Defined.

(** C6 as stated fails on a speed that is not a number. The grid point
    [(25, 25)] of [nan_field] has the velocity [(nan, nan)] and the speed
    [nan], which is not at least 0.01; it is not below 0.01 either, so the
    point gets a glyph. *)
Lemma nan_speed_is_drawn :
  exists (grid : list (Z * Z)) (vx vy speed : float)
         (g : @ArrowGlyph float),
    generate_grid nan_field 25 = Ok grid
    /\ nth_error grid 0 = Some (25, 25)%Z
    /\ velocity_field nan_field (of_int 25) (of_int 25) = Ok (vx, vy)
    /\ fsqrt (fadd (fmul vx vx) (fmul vy vy)) = Ok speed
    /\ PrimFloat.leb (lit 0.01) speed = false
    /\ PrimFloat.ltb speed (lit 0.01) = false
    /\ arrow_glyphs nan_field (lit 1.2) [(25, 25)%Z] = Ok [g]
    /\ origin_x g = of_int 25 /\ origin_y g = of_int 25.
Proof.
  eexists. exists nan, nan, nan. eexists.
  split; [apply generate_grid_ok; discriminate |].
  repeat split; vm_compute; reflexivity.
Qed.

Section DocumentIdeal.

Variable fmt_2f : R -> string.
Variable fmt_str : R -> string.
Variable self : @HurricaneFlowField R.

Local Open Scope R_scope.


End DocumentIdeal.



(** * Where the exact statements stop *)

Section Limits.

Local Open Scope R_scope.

Lemma reverse_max_wind_speed : max_wind_speed reverse_field = - 60.
Proof. reflexivity. Qed.

Lemma reverse_eye_radius : eye_radius reverse_field = 40.
Proof. apply lit_40_0. Qed.

Lemma speed_100 : speed (100, 0) = 100.
Proof. rewrite speed_horizontal, Rabs_pos_eq; lra. Qed.

End Limits.

(** C4 as stated fails in three ways. In binary64 the arrow of the velocity
    [(100, 100)] at [(25, 25)], clipped to the length [20 * 1], has its tip
    at [(39.142135623730951, 39.142135623730951)]: the exact distance from
    the origin to that tip is above 20. With the scale [-2] the shaft, of
    length 40, is longer than [20 * -2]. And with the wind speed [-60] the
    factor [min(speed / max_wind_speed, 1)] is [-5/3], a shaft of length
    [100/3] against [20 * 1]. *)
Lemma shaft_can_exceed :
  (exists (g : @ArrowGlyph float) (tx ty : Q),
      arrow_points (@main_field float _) (of_int 25) (of_int 25)
        (lit 100) (lit 100) (lit 1.0) (lit 20.0) = Ok (Some g)
      /\ float_to_Q (tip_x g) = Some tx
      /\ float_to_Q (tip_y g) = Some ty
      /\ ((20 * 1) * (20 * 1)
          < (tx - 25) * (tx - 25) + (ty - 25) * (ty - 25))%Q)
  /\ (exists g : @ArrowGlyph R,
        arrow_points (@main_field R _) 400%R 310%R 100%R 0%R (- 2)%R 20%R
        = Ok (Some g)
        /\ (20 * - 2 < shaft_length g)%R)
  /\ (exists g : @ArrowGlyph R,
        arrow_points reverse_field 400%R 310%R 100%R 0%R 1%R 20%R
        = Ok (Some g)
        /\ (20 * 1 < shaft_length g)%R).
Proof.
  split; [| split].
  - eexists. eexists. eexists.
    split; [vm_compute; reflexivity |].
    split; [vm_compute; reflexivity |].
    split; [vm_compute; reflexivity |].
    vm_compute. reflexivity.
  - exists (arrow_R main_field 400 310 100 0 (- 2) 20).
    split.
    + apply arrow_points_drawn; [rewrite speed_100; lra |].
      rewrite main_max_wind_speed. lra.
    + rewrite shaft_length_arrow_R by (rewrite speed_100; lra).
      rewrite speed_100, main_max_wind_speed, Rmin_right by lra.
      rewrite Rabs_left by lra. lra.
  - exists (arrow_R reverse_field 400 310 100 0 1 20).
    split.
    + apply arrow_points_drawn; [rewrite speed_100; lra |].
      rewrite reverse_max_wind_speed. lra.
    + rewrite shaft_length_arrow_R by (rewrite speed_100; lra).
      rewrite speed_100, reverse_max_wind_speed, Rmin_left by lra.
      rewrite Rabs_left by lra. lra.
Qed.

(** C10 as stated fails in two ways. In binary64 the velocity at
    [(425, 325)], inside the eye of [main], is
    [(-1.0606601717798212, 1.0606601717798212)]: its exact magnitude is not
    [60 / 40], and the speed computed from it is below the 1.5 computed at
    [(400, 310)], so the magnitude is neither exactly
    [max_wind_speed / eye_radius] nor constant. And with the wind speed
    [-60] the magnitude is [1.5], not [-60 / 40]. *)
Lemma eye_speed_not_exact :
  (exists (vx vy s s' : float) (qx qy : Q),
      velocity_field (@main_field float _) (of_int 425) (of_int 325)
      = Ok (vx, vy)
      /\ float_to_Q vx = Some qx /\ float_to_Q vy = Some qy
      /\ (qx * qx + qy * qy < (60 / 40) * (60 / 40))%Q
      /\ fsqrt (fadd (fmul vx vx) (fmul vy vy)) = Ok s
      /\ (exists vx' vy' : float,
            velocity_field (@main_field float _) (of_int 400) (of_int 310)
            = Ok (vx', vy')
            /\ fsqrt (fadd (fmul vx' vx') (fmul vy' vy')) = Ok s')
      /\ fdiv (max_wind_speed (@main_field float _))
              (eye_radius (@main_field float _)) = Ok s'
      /\ PrimFloat.ltb s s' = true)
  /\ (exists v : R * R,
        velocity_field reverse_field 400%R (300 + 10)%R = Ok v
        /\ speed v = (3 / 2)%R
        /\ (max_wind_speed reverse_field / eye_radius reverse_field
            = - (3 / 2))%R).
Proof.
  split.
  - do 6 eexists.
    split; [vm_compute; reflexivity |].
    split; [vm_compute; reflexivity |].
    split; [vm_compute; reflexivity |].
    split; [vm_compute; reflexivity |].
    split; [vm_compute; reflexivity |].
    split; [do 2 eexists; split; vm_compute; reflexivity |].
    split; vm_compute; reflexivity.
  - assert (Hr : (0.1 <= radius reverse_field 400 (300 + 10)
                  < eye_radius reverse_field)%R).
    { rewrite reverse_eye_radius.
      pose proof (radius_below reverse_field 10) as E.
      cbn [center_x center_y reverse_field of_int R_float] in E.
      rewrite E; lra. }
    destruct (velocity_inside_eye reverse_field _ _ Hr)
      as (v & Hv & _ & Hs & _).
    exists v. split; [exact Hv |].
    rewrite reverse_max_wind_speed, reverse_eye_radius in *.
    split; [rewrite Hs, Rabs_left; lra | lra].
Qed.
